(** * The Murmur ICE JSON-RPC sidecar (scripts/mumble-ice.py)

    A shallow embedding of [create_communicator], [dispatch] and [main],
    and the properties of the line protocol they implement.

    Conventions of the embedding.
    - A Python value that can reach the program (the result of
      [json.loads], or a value built by [dispatch]) is a [pyval].  A dict
      is an association list in insertion order; its keys are [pykey]s,
      since Python allows integer keys where JSON does not.
    - An exception is an [exn]; a computation that can raise returns an
      [outcome].  Only subclasses of [Exception] are modelled: an
      interrupt or [SystemExit] delivered from outside is not.
    - Effects (the remote server, standard output and error, the
      communicator) are threaded through a [world]; every effect is
      appended to [trace], so that order can be stated.
    - What the interpreter and its libraries decide, and the source does
      not, is a parameter: the text functions that depend on the Unicode
      tables and on the interpreter's version ([PyRuntime]), the remote
      server ([ServerPrx]) and the ICE run time ([IceRuntime]).
    - Standard input is a list of decoded lines.  A line written to
      standard output is recorded as the document given to [json.dumps];
      encoding a document the program builds and writing a line are taken
      not to fail. *)

From Stdlib Require Import ZArith String Ascii List Bool Lia Floats.
From Stdlib Require Import DecimalString DecimalPos DecimalZ.
From Stdlib Require Import Permutation.
Import ListNotations.
Open Scope string_scope.
Open Scope Z_scope.

Set Implicit Arguments.
Set Warnings "-register-all".

(** ** Python values *)

Inductive pykey : Type :=
| KStr (s : string)
| KInt (z : Z).

Inductive pyval : Type :=
| PNone
| PBool (b : bool)
| PInt (z : Z)
| PFloat (f : float)
| PStr (s : string)
| PList (l : list pyval)
| PDict (d : list (pykey * pyval)).

(** [type(v).__name__] *)
Definition type_name (v : pyval) : string :=
  match v with
  | PNone => "NoneType"
  | PBool _ => "bool"
  | PInt _ => "int"
  | PFloat _ => "float"
  | PStr _ => "str"
  | PList _ => "list"
  | PDict _ => "dict"
  end.

(** ** Exceptions *)

(** The three Murmur exceptions that [main] names, and every other
    subclass of [Exception] with its class name; [text] is [str(e)]. *)
Inductive exn : Type :=
| InvalidUserException (text : string)
| InvalidChannelException (text : string)
| InvalidSecretException (text : string)
| OtherException (cls : string) (text : string).

(** [type(e).__name__] *)
Definition exn_type_name (e : exn) : string :=
  match e with
  | InvalidUserException _ => "InvalidUserException"
  | InvalidChannelException _ => "InvalidChannelException"
  | InvalidSecretException _ => "InvalidSecretException"
  | OtherException cls _ => cls
  end.

(** [str(e)] *)
Definition exn_str (e : exn) : string :=
  match e with
  | InvalidUserException t
  | InvalidChannelException t
  | InvalidSecretException t
  | OtherException _ t => t
  end.

Inductive outcome (A : Type) : Type :=
| Ok (a : A)
| Raise (e : exn).

Arguments Ok {A} a.
Arguments Raise {A} e.

Definition AttributeError (text : string) : exn := OtherException "AttributeError" text.
Definition KeyError (text : string) : exn := OtherException "KeyError" text.
Definition TypeError (text : string) : exn := OtherException "TypeError" text.
Definition ValueError (text : string) : exn := OtherException "ValueError" text.
Definition OverflowError (text : string) : exn := OtherException "OverflowError" text.
Definition RuntimeError (text : string) : exn := OtherException "RuntimeError" text.

(** ** The interpreter's text functions *)

(** What depends on the Unicode tables or on the interpreter's version:
    [str.strip], [json.loads] (its error is a class name and a message),
    [int] applied to a [str] (its error is the message of a
    [ValueError]), and [repr] of a [str] and of a [float]. *)
Class PyRuntime : Type := {
  strip : string -> string;
  json_loads : string -> pyval + string * string;
  int_of_text : string -> Z + string;
  text_repr : string -> string;
  float_repr : float -> string
}.

(** [str(z)] for an [int]. *)
Definition str_of_int (z : Z) : string := NilZero.string_of_int (Z.to_int z).

(** ** Dicts: association lists in insertion order *)

Definition pykey_eqb (a b : pykey) : bool :=
  match a, b with
  | KStr s, KStr t => String.eqb s t
  | KInt x, KInt y => Z.eqb x y
  | _, _ => false
  end.

Section Assoc.
Variables (K V : Type) (eqb : K -> K -> bool).

Fixpoint assoc_get (k : K) (d : list (K * V)) : option V :=
  match d with
  | [] => None
  | (k', v) :: rest => if eqb k k' then Some v else assoc_get k rest
  end.

(** [d[k] = v]: an existing key keeps its place, a new one goes last. *)
Fixpoint assoc_set (k : K) (v : V) (d : list (K * V)) : list (K * V) :=
  match d with
  | [] => [(k, v)]
  | (k', v') :: rest =>
      if eqb k k' then (k, v) :: rest else (k', v') :: assoc_set k v rest
  end.
End Assoc.

Definition dict_get (k : string) (d : list (pykey * pyval)) : option pyval :=
  assoc_get pykey_eqb (KStr k) d.

Definition dict_set (k : pykey) (v : pyval) (d : list (pykey * pyval)) :=
  assoc_set pykey_eqb k v d.

(** ** Built-in operations the source applies to request values *)

(** [needle in hay] for two [str]s. *)
Fixpoint is_substring (needle hay : string) : bool :=
  if String.prefix needle hay then true
  else match hay with
       | EmptyString => false
       | String _ rest => is_substring needle rest
       end.

Definition key_value (k : pykey) : pyval :=
  match k with
  | KStr s => PStr s
  | KInt z => PInt z
  end.

(** [obj.get(key, default)] *)
Definition py_get (obj : pyval) (key : string) (default : pyval) : outcome pyval :=
  match obj with
  | PDict d => Ok (match dict_get key d with Some v => v | None => default end)
  | _ => Raise (AttributeError ("'" ++ type_name obj ++ "' object has no attribute 'get'"))
  end.

(** [obj[key]] for one of the literal keys of the source, whose [repr]
    is the key between single quotes. *)
Definition py_getitem (obj : pyval) (key : string) : outcome pyval :=
  match obj with
  | PDict d =>
      match dict_get key d with
      | Some v => Ok v
      | None => Raise (KeyError ("'" ++ key ++ "'"))
      end
  | PList _ => Raise (TypeError "list indices must be integers or slices, not str")
  | PStr _ => Raise (TypeError "string indices must be integers, not 'str'")
  | _ => Raise (TypeError ("'" ++ type_name obj ++ "' object is not subscriptable"))
  end.

(** [key in obj] *)
Definition py_contains (key : string) (obj : pyval) : outcome bool :=
  match obj with
  | PDict d => Ok (match dict_get key d with Some _ => true | None => false end)
  | PList l =>
      Ok (existsb (fun x => match x with PStr s => String.eqb s key | _ => false end) l)
  | PStr s => Ok (is_substring key s)
  | _ => Raise (TypeError ("argument of type '" ++ type_name obj ++ "' is not iterable"))
  end.

(** The items [for a in obj] visits. *)
Definition py_iter (obj : pyval) : outcome (list pyval) :=
  match obj with
  | PList l => Ok l
  | PDict d => Ok (map (fun kv => key_value (fst kv)) d)
  | PStr s => Ok (map (fun c => PStr (String c EmptyString)) (list_ascii_of_string s))
  | _ => Raise (TypeError ("'" ++ type_name obj ++ "' object is not iterable"))
  end.

(** [bool(v)] *)
Definition py_bool (v : pyval) : bool :=
  match v with
  | PNone => false
  | PBool b => b
  | PInt z => negb (z =? 0)
  | PFloat f => negb (PrimFloat.eqb f 0%float)
  | PStr s => negb (String.eqb s "")
  | PList l => match l with [] => false | _ => true end
  | PDict d => match d with [] => false | _ => true end
  end.

(** [int(f)] for a [float]: truncation toward zero. *)
Definition int_of_float (f : float) : outcome Z :=
  match Prim2SF f with
  | S754_zero _ => Ok 0
  | S754_finite s m e =>
      let mag := if 0 <=? e then Z.shiftl (Zpos m) e else Z.shiftr (Zpos m) (- e) in
      Ok (if s then - mag else mag)
  | S754_infinity _ => Raise (OverflowError "cannot convert float infinity to integer")
  | S754_nan => Raise (ValueError "cannot convert float NaN to integer")
  end.

Section Builtins.
Context {rt : PyRuntime}.

(** [int(v)] *)
Definition py_int (v : pyval) : outcome Z :=
  match v with
  | PInt z => Ok z
  | PBool b => Ok (if b then 1 else 0)
  | PFloat f => int_of_float f
  | PStr s =>
      match int_of_text s with
      | inl z => Ok z
      | inr text => Raise (ValueError text)
      end
  | _ => Raise (TypeError
           ("int() argument must be a string, a bytes-like object or a real number, not '"
            ++ type_name v ++ "'"))
  end.

Definition key_repr (k : pykey) : string :=
  match k with
  | KStr s => text_repr s
  | KInt z => str_of_int z
  end.

(** [repr(v)] *)
Fixpoint py_repr (v : pyval) : string :=
  match v with
  | PNone => "None"
  | PBool b => if b then "True" else "False"
  | PInt z => str_of_int z
  | PFloat f => float_repr f
  | PStr s => text_repr s
  | PList l => "[" ++ String.concat ", " (map py_repr l) ++ "]"
  | PDict d =>
      "{" ++ String.concat ", "
               (map (fun kv => key_repr (fst kv) ++ ": " ++ py_repr (snd kv)) d) ++ "}"
  end.

(** [str(v)], also what an f-string writes for [{v}]. *)
Definition py_str (v : pyval) : string :=
  match v with
  | PStr s => s
  | _ => py_repr v
  end.
End Builtins.

(** ** The Murmur data the source handles *)

(** [Murmur.ACL], with the seven fields [dispatch] reads and writes. *)
Record ACL : Type := mkACL {
  applyHere : bool;
  applySubs : bool;
  inherited : bool;
  userid : Z;
  group : string;
  allow : Z;
  deny : Z
}.

(** Modelled from the spec: the enumeration [Murmur.UserInfo] is declared
    in MumbleServer.ice, which is loaded at run time.  A member is its
    field index; the indices are those of [name_map] in [dispatch]. *)
Definition UserInfo : Type := Z.
Definition UserName : UserInfo := 0.
Definition UserPassword : UserInfo := 4.

(** ** The remote server *)

(** [Murmur.ServerPrx]: the seven remote procedures, each a transition on
    the server's state [S] that returns or raises.  An argument the source
    passes on unconverted is a [pyval].  [Group] is the slice's group
    definition, which the source never inspects. *)
Class ServerPrx (S Group : Type) : Type := {
  registerUser : S -> list (UserInfo * pyval) -> outcome Z * S;
  unregisterUser : S -> Z -> outcome unit * S;
  updateRegistration : S -> Z -> list (UserInfo * pyval) -> outcome unit * S;
  getRegisteredUsers : S -> pyval -> outcome (list (Z * string)) * S;
  setACL : S -> Z -> list ACL -> list Group -> bool -> outcome unit * S;
  getACL : S -> Z -> outcome (list ACL * list Group * bool) * S;
  getRegistration : S -> Z -> outcome (list (UserInfo * string)) * S
}.

(** A remote procedure with the arguments it was invoked with. *)
Inductive remote_call (Group : Type) : Type :=
| Call_registerUser (info : list (UserInfo * pyval))
| Call_unregisterUser (userId : Z)
| Call_updateRegistration (userId : Z) (info : list (UserInfo * pyval))
| Call_getRegisteredUsers (filter : pyval)
| Call_setACL (channelId : Z) (acls : list ACL) (groups : list Group) (inherit : bool)
| Call_getACL (channelId : Z)
| Call_getRegistration (userId : Z).

Arguments Call_registerUser {Group} info.
Arguments Call_unregisterUser {Group} userId.
Arguments Call_updateRegistration {Group} userId info.
Arguments Call_getRegisteredUsers {Group} filter.
Arguments Call_getACL {Group} channelId.
Arguments Call_getRegistration {Group} userId.

(** ** Effects *)

Inductive event (Group : Type) : Type :=
| Stdout (doc : pyval)                 (* print(json.dumps(doc), flush=True) *)
| Stderr (text : string)               (* print(text, file=sys.stderr, flush=True) *)
| Traceback (e : exn)                  (* the traceback of e on sys.stderr *)
| ReadLine (line : string)             (* one line taken from sys.stdin *)
| RemoteCall (c : remote_call Group)   (* a procedure invoked on the server proxy *)
| CommunicatorCreated                  (* Ice.initialize returned a communicator *)
| MetaResolved                         (* checkedCast returned a Meta proxy *)
| ServerResolved (id : Z)              (* getServer(id) returned a server proxy *)
| CommunicatorDestroyed.               (* communicator.destroy() *)

Arguments Stdout {Group} doc.
Arguments Stderr {Group} text.
Arguments Traceback {Group} e.
Arguments ReadLine {Group} line.
Arguments CommunicatorCreated {Group}.
Arguments MetaResolved {Group}.
Arguments ServerResolved {Group} id.
Arguments CommunicatorDestroyed {Group}.

Record world (S Group : Type) : Type := mkWorld {
  server_state : S;
  trace : list (event Group)
}.

(** A computation: it returns or raises, and leaves a world either way. *)
Definition M (S Group A : Type) : Type := world S Group -> outcome A * world S Group.

Section Monad.
Context {S Group : Type}.

Definition ret {A} (a : A) : M S Group A := fun w => (Ok a, w).

Definition raise {A} (e : exn) : M S Group A := fun w => (Raise e, w).

Definition bind {A B} (m : M S Group A) (f : A -> M S Group B) : M S Group B :=
  fun w =>
    match m w with
    | (Ok a, w') => f a w'
    | (Raise e, w') => (Raise e, w')
    end.

(** A computation that touches no effect. *)
Definition lift {A} (o : outcome A) : M S Group A := fun w => (o, w).

Definition emit (ev : event Group) : M S Group unit :=
  fun w => (Ok tt, mkWorld (server_state w) (trace w ++ [ev])).

(** Invoke a remote procedure: the call is recorded, then the server
    answers. *)
Definition invoke {A} (c : remote_call Group) (f : S -> outcome A * S) : M S Group A :=
  fun w =>
    let (r, s') := f (server_state w) in
    (r, mkWorld s' (trace w ++ [RemoteCall c])).
End Monad.

Declare Scope monad_scope.
Delimit Scope monad_scope with monad.
Notation "x <- c1 ;; c2" := (bind c1 (fun x => c2))
  (at level 61, c1 at next level, right associativity) : monad_scope.
Notation "c1 ;; c2" := (bind c1 (fun _ => c2))
  (at level 61, right associativity) : monad_scope.
Open Scope monad_scope.

(** Sequencing for a computation that touches no effect. *)
Definition and_then {A B} (o : outcome A) (f : A -> outcome B) : outcome B :=
  match o with
  | Ok a => f a
  | Raise e => Raise e
  end.

Notation "x <~ c1 ;; c2" := (and_then c1 (fun x => c2))
  (at level 61, c1 at next level, right associativity) : monad_scope.

(** [mapM]: the loop that converts every item in order and stops at the
    first that raises. *)
Fixpoint traverse {A B} (f : A -> outcome B) (l : list A) : outcome (list B) :=
  match l with
  | [] => Ok []
  | x :: rest =>
      match f x with
      | Raise e => Raise e
      | Ok y =>
          match traverse f rest with
          | Raise e => Raise e
          | Ok ys => Ok (y :: ys)
          end
      end
  end.

(** ** dispatch *)

(** The value [name_map.get(int(k), str(k))] of [dispatch]. *)
Definition name_map : list (Z * string) :=
  [ (0, "UserName"); (1, "UserEmail"); (2, "UserComment"); (3, "UserHash");
    (4, "UserPassword"); (5, "UserLastActive"); (6, "UserKDFIterations") ].

Definition field_name (k : UserInfo) : string :=
  match assoc_get Z.eqb k name_map with
  | Some name => name
  | None => str_of_int k
  end.

(** A dict comprehension [{key(k): v for k, v in items}] over [str]
    values: the items are stored in order. *)
Definition dict_of_items (key : Z -> string) (items : list (Z * string))
  : list (pykey * pyval) :=
  fold_left (fun d kv => dict_set (KStr (key (fst kv))) (PStr (snd kv)) d) items [].

(** One entry of the response of [getACL]. *)
Definition acl_to_dict (a : ACL) : pyval :=
  PDict [ (KStr "applyHere", PBool (applyHere a));
          (KStr "applySubs", PBool (applySubs a));
          (KStr "inherited", PBool (inherited a));
          (KStr "userid", PInt (userid a));
          (KStr "group", PStr (group a));
          (KStr "allow", PInt (allow a));
          (KStr "deny", PInt (deny a)) ].

Section Dispatch.
Context {rt : PyRuntime} {S Group : Type} {server : ServerPrx S Group}.

(** [method == name], for a method of any type. *)
Definition method_is (method : pyval) (name : string) : bool :=
  match method with
  | PStr s => String.eqb s name
  | _ => false
  end.

(** The body of the loop of [setACL]: one [Murmur.ACL] from one item. *)
Definition acl_of_item (a : pyval) : outcome ACL :=
  v_here <~ py_get a "applyHere" (PBool true) ;;
  v_subs <~ py_get a "applySubs" (PBool true) ;;
  v_inherited <~ py_get a "inherited" (PBool false) ;;
  v_userid <~ py_get a "userid" (PInt (-1)) ;;
  n_userid <~ py_int v_userid ;;
  v_group <~ py_get a "group" (PStr "") ;;
  v_allow <~ py_get a "allow" (PInt 0) ;;
  n_allow <~ py_int v_allow ;;
  v_deny <~ py_get a "deny" (PInt 0) ;;
  n_deny <~ py_int v_deny ;;
  Ok (mkACL (py_bool v_here) (py_bool v_subs) (py_bool v_inherited) n_userid
            (py_str v_group) n_allow n_deny).

(** The loop of [setACL]: the list [acls] it builds from [params]. *)
Definition acls_of_params (params : pyval) : outcome (list ACL) :=
  entries <~ py_get params "acls" (PList []) ;;
  items <~ py_iter entries ;;
  traverse acl_of_item items.

(** The dict [info] that [updateRegistration] builds from [params]. *)
Definition info_of_updates (params : pyval) : outcome (list (UserInfo * pyval)) :=
  updates <~ py_get params "updates" (PDict []) ;;
  let info := [] in
  has_username <~ py_contains "username" updates ;;
  info <~ (if has_username : bool
           then v <~ py_getitem updates "username" ;;
                Ok (assoc_set Z.eqb UserName v info)
           else Ok info) ;;
  has_password <~ py_contains "password" updates ;;
  info <~ (if has_password : bool
           then v <~ py_getitem updates "password" ;;
                Ok (assoc_set Z.eqb UserPassword v info)
           else Ok info) ;;
  Ok info.

Definition dispatch (method params : pyval) : M S Group pyval :=
  if method_is method "registerUser" then
    username <- lift (py_getitem params "username") ;;
    password <- lift (py_getitem params "password") ;;
    let info := [(UserName, username); (UserPassword, password)] in
    user_id <- invoke (Call_registerUser info) (fun s => registerUser s info) ;;
    ret (PInt user_id)

  else if method_is method "unregisterUser" then
    v <- lift (py_getitem params "userId") ;;
    userId <- lift (py_int v) ;;
    invoke (Call_unregisterUser userId) (fun s => unregisterUser s userId) ;;
    ret PNone

  else if method_is method "updateRegistration" then
    info <- lift (info_of_updates params) ;;
    v <- lift (py_getitem params "userId") ;;
    userId <- lift (py_int v) ;;
    invoke (Call_updateRegistration userId info)
           (fun s => updateRegistration s userId info) ;;
    ret PNone

  else if method_is method "getRegisteredUsers" then
    filter <- lift (py_get params "filter" (PStr "")) ;;
    result <- invoke (Call_getRegisteredUsers filter)
                     (fun s => getRegisteredUsers s filter) ;;
    ret (PDict (dict_of_items str_of_int result))

  else if method_is method "setACL" then
    acls <- lift (acls_of_params params) ;;
    v <- lift (py_getitem params "channelId") ;;
    channelId <- lift (py_int v) ;;
    inherit <- lift (py_get params "inherit" (PBool true)) ;;
    invoke (Call_setACL channelId acls [] (py_bool inherit))
           (fun s => setACL s channelId acls [] (py_bool inherit)) ;;
    ret PNone

  else if method_is method "getACL" then
    v <- lift (py_getitem params "channelId") ;;
    channelId <- lift (py_int v) ;;
    reply <- invoke (Call_getACL channelId) (fun s => getACL s channelId) ;;
    let '(acls, groups, inherit) := reply in
    ret (PDict [ (KStr "acls", PList (map acl_to_dict acls));
                 (KStr "inherit", PBool inherit) ])

  else if method_is method "getRegistration" then
    v <- lift (py_getitem params "userId") ;;
    userId <- lift (py_int v) ;;
    result <- invoke (Call_getRegistration userId) (fun s => getRegistration s userId) ;;
    ret (PDict (dict_of_items field_name result))

  else
    raise (ValueError ("Unknown method: " ++ py_str method)).
End Dispatch.

(** ** The ICE run time and the process environment *)

(** What the ICE library and the network decide during start-up.  A proxy
    is identified by the string it was made from; [checkedCast] and
    [getServer] answer [Ok false] when they return no proxy. *)
Class IceRuntime : Type := {
  environ : string -> option string;          (* os.environ *)
  createProperties : outcome unit;            (* Ice.createProperties(sys.argv) *)
  initialize : outcome unit;                  (* Ice.initialize(init_data) *)
  put_secret : string -> outcome unit;        (* getImplicitContext().put('secret', s) *)
  stringToProxy : string -> outcome unit;     (* communicator.stringToProxy(s) *)
  checkedCast : string -> outcome bool;       (* Murmur.MetaPrx.checkedCast(base) *)
  getServer : Z -> outcome bool               (* meta.getServer(id) *)
}.

(** ** main *)

(** The [error] field [main] writes for an exception of one request. *)
Definition error_message (e : exn) : string :=
  match e with
  | InvalidUserException _
  | InvalidChannelException _ => "Murmur: " ++ exn_type_name e
  | InvalidSecretException _ => "Murmur: InvalidSecret — check MUMBLE_ICE_SECRET"
  | OtherException _ _ => exn_str e
  end.

Definition ready_line : pyval := PDict [(KStr "ready", PBool true)].

Definition result_line (req_id result : pyval) : pyval :=
  PDict [(KStr "id", req_id); (KStr "result", result)].

Definition error_line (req_id : pyval) (e : exn) : pyval :=
  PDict [(KStr "id", req_id); (KStr "error", PStr (error_message e))].

Section Main.
Context {rt : PyRuntime} {ice : IceRuntime} {S Group : Type}
        {server : ServerPrx S Group}.

(** [os.environ.get(key, default)] *)
Definition environ_get (key default : string) : string :=
  match environ key with
  | Some v => v
  | None => default
  end.

Definition create_communicator (host : string) (port : Z) (secret : string)
  : M S Group unit :=
  lift createProperties ;;
  lift initialize ;;
  emit CommunicatorCreated ;;
  if String.eqb secret "" then ret tt else lift (put_secret secret).

(** The statements of the inner [try] up to the call of [dispatch], for
    a stripped line: what they return or raise, and the value of
    [req_id] when they are left. *)
Definition handle_request (line : string)
  : world S Group -> outcome pyval * pyval * world S Group :=
  fun w =>
    match json_loads line with
    | inr (cls, text) => (Raise (OtherException cls text), PStr "", w)
    | inl req =>
        match py_get req "id" (PStr "") with
        | Raise e => (Raise e, PStr "", w)
        | Ok req_id =>
            let (r, w') :=
              (method <- lift (py_get req "method" (PStr "")) ;;
               params <- lift (py_get req "params" (PDict [])) ;;
               dispatch method params) w in
            (r, req_id, w')
        end
    end.

(** The body of the command loop for one line. *)
Definition process_line (line : string) : M S Group unit :=
  let line := strip line in
  if String.eqb line "" then ret tt
  else fun w =>
    let '(r, req_id, w') := handle_request line w in
    match r with
    | Ok result => emit (Stdout (result_line req_id result)) w'
    | Raise e => emit (Stdout (error_line req_id e)) w'
    end.

(** [for line in sys.stdin: ...] *)
Fixpoint command_loop (stdin : list string) : M S Group unit :=
  match stdin with
  | [] => ret tt
  | line :: rest =>
      emit (ReadLine line) ;;
      process_line line ;;
      command_loop rest
  end.

(** The outer [try] after [communicator] is bound. *)
Definition session (host : string) (port : Z) (stdin : list string)
  : M S Group unit :=
  let proxy := "Meta:tcp -h " ++ host ++ " -p " ++ str_of_int port in
  lift (stringToProxy proxy) ;;
  meta <- lift (checkedCast proxy) ;;
  if negb meta
  then raise (RuntimeError "Cannot cast ICE proxy to Murmur.Meta — wrong host/port?")
  else
    emit MetaResolved ;;
    server <- lift (getServer 1) ;;
    if negb server
    then raise (RuntimeError
                  "getServer(1) returned null — is virtual server 1 running?")
    else
      emit (ServerResolved 1) ;;
      emit (Stdout ready_line) ;;
      command_loop stdin.

Definition log (ev : event Group) (w : world S Group) : world S Group :=
  mkWorld (server_state w) (trace w ++ [ev]).

(** The process: the exit status and the final world.  The flag
    [communicator] says whether the local variable of that name was
    bound when the outer [try] was left. *)
Definition main (stdin : list string) (w : world S Group) : Z * world S Group :=
  let host := environ_get "MUMBLE_HOST" "mumble" in
  match int_of_text (environ_get "MUMBLE_ICE_PORT" "6502") with
  | inr text =>
      (* raised outside the try: the interpreter reports it and exits *)
      (1, log (Traceback (ValueError text)) w)
  | inl port =>
      let secret := environ_get "MUMBLE_ICE_SECRET" "" in
      let '(r, communicator, w1) :=
        match create_communicator host port secret w with
        | (Raise e, w') => (Raise e, false, w')
        | (Ok _, w') =>
            let (r, w'') := session host port stdin w' in (r, true, w'')
        end in
      let '(status, w2) :=
        match r with
        | Ok _ => (0, w1)
        | Raise e =>
            (1, log (Traceback e) (log (Stderr ("[mumble-ice] Fatal: " ++ exn_str e)) w1))
        end in
      (status, if communicator : bool then log CommunicatorDestroyed w2 else w2)
  end.
End Main.

(** ** Vocabulary of the properties *)

(** The seven names of the operation table. *)
Definition known_methods : list string :=
  [ "registerUser"; "unregisterUser"; "updateRegistration"; "getRegisteredUsers";
    "setACL"; "getACL"; "getRegistration" ].

Definition is_known (method : pyval) : bool :=
  existsb (method_is method) known_methods.



(** The procedure a remote call invokes. *)
Definition call_name {Group} (c : remote_call Group) : string :=
  match c with
  | Call_registerUser _ => "registerUser"
  | Call_unregisterUser _ => "unregisterUser"
  | Call_updateRegistration _ _ => "updateRegistration"
  | Call_getRegisteredUsers _ => "getRegisteredUsers"
  | Call_setACL _ _ _ _ => "setACL"
  | Call_getACL _ => "getACL"
  | Call_getRegistration _ => "getRegistration"
  end.

(** The documents written to standard output, in order. *)
Fixpoint stdout_of {Group} (evs : list (event Group)) : list pyval :=
  match evs with
  | [] => []
  | Stdout doc :: rest => doc :: stdout_of rest
  | _ :: rest => stdout_of rest
  end.

(** The lines taken from standard input, in order. *)
Fixpoint reads_of {Group} (evs : list (event Group)) : list string :=
  match evs with
  | [] => []
  | ReadLine line :: rest => line :: reads_of rest
  | _ :: rest => reads_of rest
  end.

(** What was written to standard error, in order. *)
Fixpoint stderr_of {Group} (evs : list (event Group)) : list (event Group) :=
  match evs with
  | [] => []
  | Stderr t :: rest => Stderr t :: stderr_of rest
  | Traceback e :: rest => Traceback e :: stderr_of rest
  | _ :: rest => stderr_of rest
  end.

Definition is_created {Group} (ev : event Group) : bool :=
  match ev with CommunicatorCreated => true | _ => false end.

Definition is_destroyed {Group} (ev : event Group) : bool :=
  match ev with CommunicatorDestroyed => true | _ => false end.

Definition count {A} (p : A -> bool) (l : list A) : nat := length (filter p l).

(** A response: an object with [id] and then exactly one of [result] and
    [error], the latter a string. *)
Definition is_response (req_id doc : pyval) : Prop :=
  (exists result, doc = PDict [(KStr "id", req_id); (KStr "result", result)]) \/
  (exists text, doc = PDict [(KStr "id", req_id); (KStr "error", PStr text)]).

(** [d.get(key, default)] for a dict. *)
Definition member (d : list (pykey * pyval)) (key : string) (default : pyval) : pyval :=
  match dict_get key d with
  | Some v => v
  | None => default
  end.

Definition is_object (v : pyval) : bool :=
  match v with
  | PDict _ => true
  | _ => false
  end.

(** An exception the sidecar raises itself, as against one of the three
    Murmur exceptions: its response carries its own text. *)
Definition is_local (e : exn) : Prop :=
  match e with
  | OtherException _ _ => True
  | _ => False
  end.

(** An entry of a dict whose key is a string and whose value is a string. *)
Definition string_entry (kv : pykey * pyval) : Prop :=
  exists k v, kv = (KStr k, PStr v).

(** What one call of [dispatch] may do to the world: nothing, when it
    raises before a remote call; and otherwise exactly one remote call. *)
Inductive dispatched {S Group} (w : world S Group)
  : outcome pyval -> world S Group -> Prop :=
| local_error e :
    dispatched w (Raise e) w
| remote_called c s' r :
    dispatched w r (mkWorld s' (trace w ++ [RemoteCall c])%list).

Section Vocabulary.
Context {rt : PyRuntime}.

Definition blank (line : string) : bool := String.eqb (strip line) "".

(** The id of the request on a line: the [id] member when the line is a
    JSON object that has one, the empty string otherwise. *)
Definition recovered_id (line : string) : pyval :=
  match json_loads (strip line) with
  | inl (PDict d) =>
      match dict_get "id" d with
      | Some v => v
      | None => PStr ""
      end
  | _ => PStr ""
  end.

(** For [setACL] and [updateRegistration], the parameters that [dispatch]
    handles before it coerces the id are well formed. *)
Definition earlier_parameters_ok (method : string) (params : pyval) : Prop :=
  (method = "setACL" -> exists acls, acls_of_params params = Ok acls) /\
  (method = "updateRegistration" -> exists info, info_of_updates params = Ok info).

(** What the loop does for one line: it takes the line and, unless the
    line is blank, makes at most one remote call and then writes one
    response that carries the id of the request. *)
Definition line_block {Group} (line : string) (block : list (event Group)) : Prop :=
  if blank line then block = [ReadLine line]
  else exists calls doc,
      block = ReadLine line :: map (@RemoteCall Group) calls ++ [Stdout doc] /\
      (length calls <= 1)%nat /\
      is_response (recovered_id line) doc.
End Vocabulary.

(** ** A fake collaborator for the scenarios *)

Module Scenario.

Definition is_space (c : ascii) : bool :=
  let n := nat_of_ascii c in
  orb (Nat.eqb n 32) (andb (Nat.leb 9 n) (Nat.leb n 13)).

Fixpoint ltrim (s : string) : string :=
  match s with
  | String c rest => if is_space c then ltrim rest else s
  | EmptyString => EmptyString
  end.

Definition reverse (s : string) : string :=
  string_of_list_ascii (rev (list_ascii_of_string s)).

Definition trim (s : string) : string := reverse (ltrim (reverse (ltrim s))).

(** A quoted JSON string, for text that needs no escape. *)
Definition q (s : string) : string :=
  String (ascii_of_nat 34) s ++ String (ascii_of_nat 34) "".

Definition request (id method : string) (params : list (pykey * pyval)) : pyval :=
  PDict [(KStr "id", PStr id); (KStr "method", PStr method); (KStr "params", PDict params)].

Definition line_A : string :=
  "{" ++ q "id" ++ ":" ++ q "1" ++ "," ++ q "method" ++ ":" ++ q "getRegisteredUsers"
      ++ "," ++ q "params" ++ ":{}}".
Definition line_B : string :=
  "{" ++ q "id" ++ ":" ++ q "2" ++ "," ++ q "method" ++ ":" ++ q "unregisterUser"
      ++ "," ++ q "params" ++ ":{" ++ q "userId" ++ ":" ++ q "42" ++ "}}".
Definition line_C : string :=
  "{" ++ q "id" ++ ":" ++ q "3" ++ "," ++ q "method" ++ ":" ++ q "frobnicate"
      ++ "," ++ q "params" ++ ":{}}".
Definition line_D : string :=
  "{" ++ q "id" ++ ":" ++ q "4" ++ "," ++ q "method" ++ ":" ++ q "getACL"
      ++ "," ++ q "params" ++ ":{" ++ q "channelId" ++ ":999}}".
Definition line_bad_id : string :=
  "{" ++ q "id" ++ ":" ++ q "5" ++ "," ++ q "method" ++ ":" ++ q "unregisterUser"
      ++ "," ++ q "params" ++ ":{" ++ q "userId" ++ ":" ++ q "abc" ++ "}}".
Definition line_array : string := "[1, 2]".
Definition line_F : string :=
  "{" ++ q "id" ++ ":" ++ q "6" ++ "," ++ q "method" ++ ":" ++ q "getACL"
      ++ "," ++ q "params" ++ ":{" ++ q "channelId" ++ ":0}}".
Definition line_G : string :=
  "{" ++ q "id" ++ ":" ++ q "7" ++ "," ++ q "method" ++ ":" ++ q "getRegistration"
      ++ "," ++ q "params" ++ ":{" ++ q "userId" ++ ":7}}".

(** The lines this fake of [json.loads] decodes; any other is an error. *)
Definition documents : list (string * pyval) :=
  [ (line_A, request "1" "getRegisteredUsers" []);
    (line_B, request "2" "unregisterUser" [(KStr "userId", PStr "42")]);
    (line_C, request "3" "frobnicate" []);
    (line_D, request "4" "getACL" [(KStr "channelId", PInt 999)]);
    (line_bad_id, request "5" "unregisterUser" [(KStr "userId", PStr "abc")]);
    (line_array, PList [PInt 1; PInt 2]);
    (line_F, request "6" "getACL" [(KStr "channelId", PInt 0)]);
    (line_G, request "7" "getRegistration" [(KStr "userId", PInt 7)]) ].

Definition quote (s : string) : string := "'" ++ s ++ "'".

#[export] Instance runtime : PyRuntime := {|
  strip := trim;
  json_loads s :=
    match assoc_get String.eqb s documents with
    | Some v => inl v
    | None => inr ("JSONDecodeError", "Expecting value: line 1 column 1 (char 0)")
    end;
  int_of_text s :=
    match NilZero.int_of_string (trim s) with
    | Some d => inl (Z.of_int d)
    | None => inr ("invalid literal for int() with base 10: " ++ quote s)
    end;
  text_repr := quote;
  float_repr _ := "0.0"
|}.

(** The fake server: its state is the registered users; channel 0 is
    the only channel. *)
Definition users : Type := list (Z * string).

Definition registered (s : users) (id : Z) : bool :=
  match assoc_get Z.eqb id s with Some _ => true | None => false end.

Definition the_acl : ACL := mkACL true false false (-1) "all" 1 0.

#[export] Instance fake : ServerPrx users string := {|
  registerUser s info :=
    match assoc_get Z.eqb UserName info with
    | Some (PStr name) =>
        let id := Z.of_nat (length s) + 1 in (Ok id, (s ++ [(id, name)])%list)
    | _ => (Raise (ValueError "invalid value for element of UserInfoMap"), s)
    end;
  unregisterUser s id :=
    if registered s id
    then (Ok tt, filter (fun kv => negb (Z.eqb (fst kv) id)) s)
    else (Raise (InvalidUserException ""), s);
  updateRegistration s id info :=
    if registered s id then (Ok tt, s) else (Raise (InvalidUserException ""), s);
  getRegisteredUsers s _ := (Ok s, s);
  setACL s ch _ _ _ :=
    if Z.eqb ch 0 then (Ok tt, s) else (Raise (InvalidChannelException ""), s);
  getACL s ch :=
    if Z.eqb ch 0 then (Ok ([the_acl], ["admin"], true), s)
    else (Raise (InvalidChannelException ""), s);
  getRegistration s id :=
    match assoc_get Z.eqb id s with
    | Some name => (Ok [(0, name); (1, ""); (7, "x")], s)
    | None => (Raise (InvalidUserException ""), s)
    end
|}.

Definition no_environ (key : string) : option string := None.

Definition with_secret (key : string) : option string :=
  if String.eqb key "MUMBLE_ICE_SECRET" then Some "s3cret" else None.

(** Every start-up step succeeds. *)
Definition ice_up : IceRuntime := {|
  environ := no_environ;
  createProperties := Ok tt;
  initialize := Ok tt;
  put_secret _ := Ok tt;
  stringToProxy _ := Ok tt;
  checkedCast _ := Ok true;
  getServer _ := Ok true
|}.

(** Virtual server 1 is not running. *)
Definition ice_no_server : IceRuntime := {|
  environ := no_environ;
  createProperties := Ok tt;
  initialize := Ok tt;
  put_secret _ := Ok tt;
  stringToProxy _ := Ok tt;
  checkedCast _ := Ok true;
  getServer _ := Ok false
|}.

(** A secret is configured and the communicator has no implicit
    context to put it in. *)
Definition ice_no_context : IceRuntime := {|
  environ := with_secret;
  createProperties := Ok tt;
  initialize := Ok tt;
  put_secret _ := Raise (AttributeError "'NoneType' object has no attribute 'put'");
  stringToProxy _ := Ok tt;
  checkedCast _ := Ok true;
  getServer _ := Ok true
|}.

Definition start (s : users) : world users string := mkWorld s [].

End Scenario.

(** ** Vocabulary of the process *)

Section Startup.
Context {rt : PyRuntime} {ice : IceRuntime}.

(** The port the process is configured with, when it is an integer. *)
Definition configured_port : Z + string :=
  int_of_text (environ_get "MUMBLE_ICE_PORT" "6502").

(** Every step of start-up succeeds: the communicator is created and
    given the secret, if there is one, the Meta proxy is made and cast,
    and virtual server 1 is resolved. *)
Definition established (port : Z) : Prop :=
  let host := environ_get "MUMBLE_HOST" "mumble" in
  let secret := environ_get "MUMBLE_ICE_SECRET" "" in
  let proxy := "Meta:tcp -h " ++ host ++ " -p " ++ str_of_int port in
  createProperties = Ok tt /\
  initialize = Ok tt /\
  (secret = "" \/ put_secret secret = Ok tt) /\
  stringToProxy proxy = Ok tt /\
  checkedCast proxy = Ok true /\
  getServer 1 = Ok true.

Definition session_established : Prop :=
  exists port, configured_port = inl port /\ established port.
End Startup.

(** ** The server seen as one procedure *)

Section Serving.
Context {S Group : Type} {server : ServerPrx S Group}.

(** The exception an outcome raises, if it raises. *)
Definition raised {A} (o : outcome A) : option exn :=
  match o with
  | Ok _ => None
  | Raise e => Some e
  end.

(** What the server does with one call: what it raises, if it raises,
    and the state it is left in. *)
Definition serve (s : S) (c : remote_call Group) : option exn * S :=
  match c with
  | Call_registerUser info =>
      let (r, s') := registerUser s info in (raised r, s')
  | Call_unregisterUser userId =>
      let (r, s') := unregisterUser s userId in (raised r, s')
  | Call_updateRegistration userId info =>
      let (r, s') := updateRegistration s userId info in (raised r, s')
  | Call_getRegisteredUsers filter =>
      let (r, s') := getRegisteredUsers s filter in (raised r, s')
  | Call_setACL channelId acls groups inherit =>
      let (r, s') := setACL s channelId acls groups inherit in (raised r, s')
  | Call_getACL channelId =>
      let (r, s') := getACL s channelId in (raised r, s')
  | Call_getRegistration userId =>
      let (r, s') := getRegistration s userId in (raised r, s')
  end.
End Serving.

(** The remote calls of a trace, in order. *)
Fixpoint calls_of {Group} (evs : list (event Group)) : list (remote_call Group) :=
  match evs with
  | [] => []
  | RemoteCall c :: rest => c :: calls_of rest
  | _ :: rest => calls_of rest
  end.

(** The members each operation requires of its parameters, in the order
    it reads them. *)
Definition required_parameters : list (string * string) :=
  [ ("registerUser", "username"); ("registerUser", "password");
    ("unregisterUser", "userId"); ("updateRegistration", "userId");
    ("setACL", "channelId"); ("getACL", "channelId"); ("getRegistration", "userId") ].

Section Reading.
Context {rt : PyRuntime}.

(** The parameters an operation handles before it reads [key] are well
    formed. *)
Definition read_before (method key : string) (params : pyval) : Prop :=
  (method = "registerUser" -> key = "password" ->
   exists username, py_getitem params "username" = Ok username) /\
  earlier_parameters_ok method params.
End Reading.

(** The state the server is in after it served the calls [cs] in order. *)
Definition replay {S Group} {server : ServerPrx S Group} (s : S)
    (cs : list (remote_call Group)) : S :=
  fold_left (fun s c => snd (serve s c)) cs s.

(** The same server with nothing recorded yet, and a run from there
    appended to what [w] had recorded. *)
Definition restart {S Group} (w : world S Group) : world S Group :=
  mkWorld (server_state w) [].

Definition resume {S Group} (w w0 : world S Group) : world S Group :=
  mkWorld (server_state w0) (trace w ++ trace w0)%list.

(** * The transcription wrapper (scripts/transcribe.py)

    The same conventions: a document given to [json.dump] is a [pyval],
    the effects are recorded in a trace, and what the interpreter, the
    file system and the speech model decide is a parameter.  The command
    line is taken as parsed. *)

Module Transcribe.

(** ** What the speech model returns *)

Record Word : Type := mkWord {
  word_start : float;
  word_end : float;
  word : string;
  probability : float
}.

(** [words] is [None] or a list; both [None] and the empty list are
    false in [if seg.words]. *)
Record Segment : Type := mkSegment {
  seg_start : float;
  seg_end : float;
  text : string;
  avg_logprob : float;
  words : option (list Word)
}.

Record TranscriptionInfo : Type := mkInfo {
  language : string;
  duration : float
}.

(** A [Path] of the audio directory: [str(f)], [f.name] and [f.stem]. *)
Record Path : Type := mkPath {
  path_str : string;
  name : string;
  stem : string
}.

(** The parsed command line. *)
Record Args : Type := mkArgs {
  audio_dir : string;
  model : string;
  language_arg : string;
  initial_prompt : string
}.

(** ** The environment *)

(** [round(x, ndigits)] and [str.isdigit], the directory, the order of
    paths, and the speech model: loading it, and transcribing one file
    with it, which returns the segments and the information or raises
    (also while the segments are produced). *)
Class Environment : Type := {
  py_round : float -> Z -> float;
  isdigit : string -> bool;
  is_dir : string -> bool;
  glob : string -> string -> outcome (list Path);
  path_lt : Path -> Path -> bool;
  WhisperModel : string -> outcome unit;
  model_transcribe :
    string -> string -> list (pykey * pyval) -> outcome (list Segment * TranscriptionInfo)
}.

(** ** Effects *)

Inductive event : Type :=
| Stdout (doc : pyval)                     (* json.dump(doc, sys.stdout) *)
| Stderr (line : string)                   (* print(line, file=sys.stderr) *)
| Traceback (e : exn)                      (* the traceback of an uncaught e *)
| LoadModel (name : string)                (* WhisperModel(name, ...) *)
| Transcribe (audio_path : string) (kwargs : list (pykey * pyval)).
                                           (* model.transcribe(audio_path, **kwargs) *)

(** A computation: it returns or raises, and extends the trace. *)
Definition T (A : Type) : Type := list event -> outcome A * list event.

Definition ret {A} (a : A) : T A := fun tr => (Ok a, tr).

Definition bind {A B} (m : T A) (f : A -> T B) : T B :=
  fun tr =>
    match m tr with
    | (Ok a, tr') => f a tr'
    | (Raise e, tr') => (Raise e, tr')
    end.

Definition lift {A} (o : outcome A) : T A := fun tr => (o, tr).

Definition emit (ev : event) : T unit := fun tr => (Ok tt, (tr ++ [ev])%list).

Declare Scope transcribe_scope.
Notation "x <- c1 ;; c2" := (bind c1 (fun x => c2))
  (at level 61, c1 at next level, right associativity) : transcribe_scope.
Notation "c1 ;; c2" := (bind c1 (fun _ => c2))
  (at level 61, right associativity) : transcribe_scope.
Local Open Scope transcribe_scope.

Section Program.
Context {rt : PyRuntime} {env : Environment}.

(** ** transcribe_file *)

Definition word_entry (w : Word) : pyval :=
  PDict [ (KStr "start", PFloat (py_round (word_start w) 3));
          (KStr "end", PFloat (py_round (word_end w) 3));
          (KStr "word", PStr (word w));
          (KStr "probability", PFloat (py_round (probability w) 4)) ].

Definition segment_entry (seg : Segment) : pyval :=
  let entry :=
    [ (KStr "start", PFloat (py_round (seg_start seg) 3));
      (KStr "end", PFloat (py_round (seg_end seg) 3));
      (KStr "text", PStr (strip (text seg)));
      (KStr "avg_logprob", PFloat (py_round (avg_logprob seg) 4)) ] in
  PDict match words seg with
        | Some (w :: ws) => dict_set (KStr "words") (PList (map word_entry (w :: ws))) entry
        | _ => entry
        end.

(** The keyword arguments of [model.transcribe]. *)
Definition keyword_arguments (language initial_prompt : string) : list (pykey * pyval) :=
  let kwargs :=
    [ (KStr "language", PStr language);
      (KStr "beam_size", PInt 5);
      (KStr "vad_filter", PBool true);
      (KStr "vad_parameters",
       PDict [ (KStr "min_silence_duration_ms", PInt 300);
               (KStr "speech_pad_ms", PInt 200) ]);
      (KStr "word_timestamps", PBool true) ] in
  if String.eqb initial_prompt ""
  then kwargs
  else dict_set (KStr "initial_prompt") (PStr initial_prompt) kwargs.

(** The document of one transcription. *)
Definition document (segments : list Segment) (info : TranscriptionInfo) : pyval :=
  PDict [ (KStr "segments", PList (map segment_entry segments));
          (KStr "language", PStr (language info));
          (KStr "duration", PFloat (py_round (duration info) 3)) ].

Definition transcribe_file (model audio_path language initial_prompt : string) : T pyval :=
  let kwargs := keyword_arguments language initial_prompt in
  emit (Transcribe audio_path kwargs) ;;
  reply <- lift (model_transcribe model audio_path kwargs) ;;
  let (segments, info) := reply : list Segment * TranscriptionInfo in
  ret (document segments info).

(** ** main *)

(** [stem.split("-", 1)] when the stem has a ["-"]: what is before the
    first one and what is after it. *)
Fixpoint split_dash (s : string) : option (string * string) :=
  match s with
  | EmptyString => None
  | String c rest =>
      if Ascii.eqb c "-" then Some (EmptyString, rest)
      else match split_dash rest with
           | Some (before, after) => Some (String c before, after)
           | None => None
           end
  end.

(** The name of the track of a file: the stem without a numeric prefix
    and its dash. *)
Definition track_name (stem : string) : string :=
  match split_dash stem with
  | Some (before, after) => if isdigit before then after else stem
  | None => stem
  end.

(** [sorted(paths)]: a stable sort, by insertion.  For an order that is
    total it is the list any stable sort returns. *)
Fixpoint insert_path (f : Path) (sorted : list Path) : list Path :=
  match sorted with
  | [] => [f]
  | g :: rest => if path_lt f g then f :: g :: rest else g :: insert_path f rest
  end.

Definition sorted (paths : list Path) : list Path :=
  fold_left (fun acc f => insert_path f acc) paths [].

(** The loop over the audio files. *)
Fixpoint transcribe_all (args : Args) (audio_files : list Path)
    (tracks : list (pykey * pyval)) : T (list (pykey * pyval)) :=
  match audio_files with
  | [] => ret tracks
  | f :: rest =>
      let name := track_name (stem f) in
      emit (Stderr ("Transcribing " ++ name ++ " (" ++ Transcribe.name f ++ ")...")) ;;
      doc <- transcribe_file (model args) (path_str f) (language_arg args)
                             (initial_prompt args) ;;
      transcribe_all args rest (dict_set (KStr name) doc tracks)
  end.

(** The files [main] works on, when the directory can be listed. *)
Definition audio_files_of (dir : string) : outcome (list Path) :=
  oggs <~ glob dir "*.ogg" ;;
  flacs <~ glob dir "*.flac" ;;
  Ok (sorted oggs ++ sorted flacs)%list.

(** What [main] does once the directory is known to be one: the exit
    status it ends with, unless it raises. *)
Definition run (args : Args) : T Z :=
  audio_files <- lift (audio_files_of (audio_dir args)) ;;
  match audio_files with
  | [] =>
      emit (Stderr ("No .ogg or .flac files found in " ++ audio_dir args)) ;;
      emit (Stdout (PDict [(KStr "tracks", PDict [])])) ;;
      ret 0
  | _ :: _ =>
      emit (Stderr ("Loading model '" ++ model args ++ "'...")) ;;
      emit (LoadModel (model args)) ;;
      lift (WhisperModel (model args)) ;;
      tracks <- transcribe_all args audio_files [] ;;
      emit (Stdout (PDict [(KStr "tracks", PDict tracks)])) ;;
      ret 0
  end.

(** The process: its exit status and its trace.  An exception that
    nothing catches ends it with status 1 after its traceback. *)
Definition main (args : Args) : Z * list event :=
  if is_dir (audio_dir args) then
    match run args [] with
    | (Ok status, tr) => (status, tr)
    | (Raise e, tr) => (1, (tr ++ [Traceback e])%list)
    end
  else
    (1, [Stderr ("Error: " ++ audio_dir args ++ " is not a directory")]).
End Program.

(** ** Vocabulary *)

Fixpoint stdout_of (tr : list event) : list pyval :=
  match tr with
  | [] => []
  | Stdout doc :: rest => doc :: stdout_of rest
  | _ :: rest => stdout_of rest
  end.

Fixpoint stderr_of (tr : list event) : list event :=
  match tr with
  | [] => []
  | Stderr t :: rest => Stderr t :: stderr_of rest
  | Traceback e :: rest => Traceback e :: stderr_of rest
  | _ :: rest => stderr_of rest
  end.

(** The paths given to the model, in order. *)
Fixpoint transcribed (tr : list event) : list string :=
  match tr with
  | [] => []
  | Transcribe p _ :: rest => p :: transcribed rest
  | _ :: rest => transcribed rest
  end.

(** The models loaded, in order. *)
Fixpoint loaded (tr : list event) : list string :=
  match tr with
  | [] => []
  | LoadModel m :: rest => m :: loaded rest
  | _ :: rest => loaded rest
  end.

(** A string without ["-"]. *)
Fixpoint dash_free (s : string) : bool :=
  match s with
  | EmptyString => true
  | String c rest => negb (Ascii.eqb c "-") && dash_free rest
  end.

Section Documents.
Context {rt : PyRuntime} {env : Environment}.

(** The document the model gives for a file, when it gives one. *)
Definition document_of (args : Args) (f : Path) : option pyval :=
  match model_transcribe (model args) (path_str f)
          (keyword_arguments (language_arg args) (initial_prompt args)) with
  | Ok (segments, info) => Some (document segments info)
  | Raise _ => None
  end.

(** The tracks after the files [files], from the tracks [acc]: each file
    that has a document stores it under the name of its track. *)
Definition tracks_of (args : Args) (files : list Path) (acc : list (pykey * pyval))
  : list (pykey * pyval) :=
  fold_left (fun acc f =>
               match document_of args f with
               | Some doc => dict_set (KStr (track_name (stem f))) doc acc
               | None => acc
               end) files acc.

(** The last file of a list whose track has the name [nm]. *)
Definition last_named (nm : string) (files : list Path) : option Path :=
  find (fun f => String.eqb (track_name (stem f)) nm) (rev files).
End Documents.

End Transcribe.

(** ** A directory and a model for the scenarios of the wrapper *)

Module Recording.
Import Transcribe.

Definition ascii_digit (c : ascii) : bool :=
  let n := nat_of_ascii c in andb (Nat.leb 48 n) (Nat.leb n 57).

Definition ascii_isdigit (s : string) : bool :=
  match s with
  | EmptyString => false
  | _ => forallb ascii_digit (list_ascii_of_string s)
  end.

(** A file of the directory [take1], by its stem and its suffix. *)
Definition file (stem suffix : string) : Path :=
  mkPath ("take1/" ++ stem ++ suffix) (stem ++ suffix) stem.

Definition oggs : list Path := [file "2-bob" ".ogg"; file "1-alice" ".ogg"].
Definition flacs : list Path := [file "3-alice" ".flac"].

(** The fake model hears, in every file, one segment that says the path
    of the file; it cannot read [.wav] files. *)
Definition heard (audio_path : string) : list Segment * TranscriptionInfo :=
  ([mkSegment 0%float 1%float (" " ++ audio_path ++ " ") 0%float None],
   mkInfo "en" 1%float).

#[export] Instance environment : Environment := {|
  py_round x _ := x;
  isdigit := ascii_isdigit;
  is_dir d := String.eqb d "take1";
  glob d pattern :=
    if String.eqb pattern "*.ogg" then Ok oggs
    else if String.eqb pattern "*.flac" then Ok flacs
    else Ok [];
  path_lt f g := String.ltb (name f) (name g);
  WhisperModel _ := Ok tt;
  model_transcribe _ audio_path _ := Ok (heard audio_path)
|}.

Definition take1 : Args := mkArgs "take1" "small" "en" "".
End Recording.

(** * Properties *)

Example str_of_int_7 : str_of_int 7 = "7".
Proof. reflexivity. Qed.

Example str_of_int_neg : str_of_int (-1) = "-1".
Proof. reflexivity. Qed.

Example int_of_float_trunc : int_of_float (-2.5)%float = Ok (-2).
Proof. vm_compute. reflexivity. Qed.

Open Scope list_scope.
Unset Implicit Arguments.

(** ** Running a computation *)

Section Effects.
Context {rt : PyRuntime} {S Group : Type} {server : ServerPrx S Group}.

(** [dispatch] raises before any remote call, or makes exactly one. *)
Lemma dispatch_dispatched method params w r w' :
  dispatch method params w = (r, w') -> dispatched w r w'.
Proof.
  unfold dispatch, bind, lift, invoke, ret, raise.
  intros H.
  repeat match goal with
         | H : (_, _) = (_, _) |- _ => inversion H; subst; clear H
         | H : context [match ?x with _ => _ end] |- _ => destruct x eqn:?
         end;
    constructor.
Qed.
End Effects.

(** ** The protocol loop *)

Section Protocol.
Context {rt : PyRuntime} {S Group : Type} {server : ServerPrx S Group}.

Lemma log_trace (ev : event Group) (w : world S Group) :
  trace (log ev w) = trace w ++ [ev].
Proof. reflexivity. Qed.

Lemma handle_request_dispatched line w r req_id w' :
  handle_request line w = (r, req_id, w') ->
  req_id = match json_loads line with
           | inl (PDict d) =>
               match dict_get "id" d with Some v => v | None => PStr "" end
           | _ => PStr ""
           end /\
  dispatched w r w'.
Proof.
  unfold handle_request.
  destruct (json_loads line) as [req | [cls text]].
  - destruct req; simpl;
      try (intros H; inversion H; subst; split; [reflexivity | constructor]).
    unfold bind, lift; simpl.
    destruct (dispatch _ _ w) as [r0 w0] eqn:Hd.
    intros H; inversion H; subst.
    split; [reflexivity | eapply dispatch_dispatched; exact Hd].
  - intros H; inversion H; subst. split; [reflexivity | constructor].
Qed.

Lemma process_line_blank line w :
  blank line = true -> process_line line w = (Ok tt, w).
Proof. unfold blank, process_line. intros ->. reflexivity. Qed.

Lemma process_line_request line w :
  blank line = false ->
  exists r req_id w1,
    handle_request (strip line) w = (r, req_id, w1) /\
    process_line line w =
      (Ok tt, log (Stdout match r with
                          | Ok result => result_line req_id result
                          | Raise e => error_line req_id e
                          end) w1).
Proof.
  unfold blank, process_line. intros ->.
  destruct (handle_request (strip line) w) as [[r req_id] w1].
  exists r, req_id, w1. split; [reflexivity |].
  destruct r; reflexivity.
Qed.

(** One line: the loop body returns, and the read followed by what the
    body appended is the block of the line. *)
Lemma process_line_block line w :
  exists w' evs,
    process_line line w = (Ok tt, w') /\
    trace w' = trace w ++ evs /\
    line_block line (ReadLine line :: evs).
Proof.
  unfold line_block.
  destruct (blank line) eqn:Hb.
  - exists w, []. rewrite app_nil_r.
    split; [apply process_line_blank; assumption | split; reflexivity].
  - destruct (process_line_request line w Hb) as (r & req_id & w1 & Hh & Hp).
    apply handle_request_dispatched in Hh. destruct Hh as [Hid Hd].
    assert (Hresp : is_response (recovered_id line)
              (match r with
               | Ok result => result_line req_id result
               | Raise e => error_line req_id e
               end)).
    { subst req_id. unfold recovered_id.
      destruct r; [left | right]; eexists; reflexivity. }
    remember (match r with
              | Ok result => result_line req_id result
              | Raise e => error_line req_id e
              end) as doc eqn:Hdoc.
    clear Hdoc Hid.
    inversion Hd; subst.
    + exists (log (Stdout doc) w1), (map (@RemoteCall Group) [] ++ [Stdout doc]).
      split; [exact Hp |]. split; [reflexivity |].
      exists [], doc. split; [reflexivity | split; [simpl; lia | exact Hresp]].
    + eexists _, (map (@RemoteCall Group) [c] ++ [Stdout doc]).
      split; [exact Hp |].
      split; [rewrite log_trace; simpl; rewrite <- app_assoc; reflexivity |].
      exists [c], doc. split; [reflexivity | split; [simpl; lia | exact Hresp]].
Qed.

Lemma command_loop_cons line rest w w1 :
  process_line line (log (ReadLine line) w) = (Ok tt, w1) ->
  command_loop (line :: rest) w = command_loop rest w1.
Proof.
  intros H. simpl. unfold bind at 1. simpl.
  fold (log (ReadLine line) w). unfold bind at 1. rewrite H. reflexivity.
Qed.

Lemma stdout_of_app (a b : list (event Group)) :
  stdout_of (a ++ b) = stdout_of a ++ stdout_of b.
Proof.
  induction a as [| ev a IH]; [reflexivity |].
  destruct ev; simpl; rewrite IH; reflexivity.
Qed.

Lemma reads_of_app (a b : list (event Group)) :
  reads_of (a ++ b) = reads_of a ++ reads_of b.
Proof.
  induction a as [| ev a IH]; [reflexivity |].
  destruct ev; simpl; rewrite IH; reflexivity.
Qed.

Lemma stdout_of_calls (calls : list (remote_call Group)) :
  stdout_of (map (@RemoteCall Group) calls) = [].
Proof. induction calls; simpl; auto. Qed.

Lemma reads_of_calls (calls : list (remote_call Group)) :
  reads_of (map (@RemoteCall Group) calls) = [].
Proof. induction calls; simpl; auto. Qed.

(** What a block reads and writes. *)
Lemma line_block_io line (block : list (event Group)) :
  line_block line block ->
  reads_of block = [line] /\
  if blank line then stdout_of block = []
  else exists doc, stdout_of block = [doc] /\ is_response (recovered_id line) doc.
Proof.
  unfold line_block. destruct (blank line).
  - intros ->. split; reflexivity.
  - intros (calls & doc & -> & _ & Hresp). simpl.
    rewrite reads_of_app, stdout_of_app, reads_of_calls, stdout_of_calls.
    split; [reflexivity |]. exists doc. split; [reflexivity | exact Hresp].
Qed.

(** The loop as a whole: it returns, and its trace is the sequence of
    the blocks of the lines. *)
Lemma command_loop_blocks stdin : forall w,
  exists w' blocks,
    command_loop stdin w = (Ok tt, w') /\
    trace w' = trace w ++ concat blocks /\
    Forall2 line_block stdin blocks.
Proof.
  induction stdin as [| line rest IH]; intros w.
  - exists w, []. simpl. rewrite app_nil_r. repeat split. constructor.
  - destruct (process_line_block line (log (ReadLine line) w)) as (w1 & evs & Hp & Ht1 & Hb).
    destruct (IH w1) as (w' & blocks & Hl & Ht & Hf).
    exists w', ((ReadLine line :: evs) :: blocks).
    split; [rewrite (command_loop_cons line rest w w1 Hp); exact Hl |].
    split; [| constructor; [exact Hb | exact Hf]].
    rewrite Ht, Ht1, log_trace. simpl concat.
    rewrite <- !app_assoc. reflexivity.
Qed.

Lemma blocks_io stdin (blocks : list (list (event Group))) :
  Forall2 line_block stdin blocks ->
  reads_of (concat blocks) = stdin /\
  Forall2 (fun line doc => is_response (recovered_id line) doc)
          (filter (fun line => negb (blank line)) stdin)
          (stdout_of (concat blocks)).
Proof.
  induction 1 as [| line block rest blocks Hb _ [IHr IHs]]; simpl.
  - split; constructor.
  - rewrite reads_of_app, stdout_of_app.
    destruct (line_block_io _ _ Hb) as [Hr Hs]. rewrite Hr, IHr.
    split; [reflexivity |].
    destruct (blank line); simpl.
    + rewrite Hs. exact IHs.
    + destruct Hs as (doc & -> & Hresp). constructor; assumption.
Qed.

(** The loop returns, and its trace, its reads and its responses are
    those of the blocks of its lines. *)
Lemma command_loop_trace (stdin : list string) (w : world S Group) :
  exists w' blocks,
    command_loop stdin w = (Ok tt, w') /\
    trace w' = trace w ++ concat blocks /\
    Forall2 line_block stdin blocks /\
    reads_of (concat blocks) = stdin /\
    Forall2 (fun line doc => is_response (recovered_id line) doc)
            (filter (fun line => negb (blank line)) stdin)
            (stdout_of (concat blocks)).
Proof.
  destruct (command_loop_blocks stdin w) as (w' & blocks & Hl & Ht & Hf).
  exists w', blocks.
  destruct (blocks_io _ _ Hf) as [Hr Hs].
  repeat split; assumption.
Qed.

(** C1.  The protocol loop returns for every input, whatever the
    requests raise.  Its trace is, line by line in the order of the
    input, the read of the line followed, for a line that is not blank,
    by at most one remote call and then exactly one response; a blank
    line is followed by nothing.  A response is an object with the id
    recovered from its line (the empty string when there is none) and
    then either a result or an error, never both.  Hence every line is
    read, and the responses written are those of the lines that are not
    blank, in the order of the input. *)
Theorem protocol_loop_one_response_per_line (stdin : list string) (w : world S Group) :
  exists w' blocks,
    command_loop stdin w = (Ok tt, w') /\
    trace w' = trace w ++ concat blocks /\
    Forall2 line_block stdin blocks /\
    reads_of (concat blocks) = stdin /\
    Forall2 (fun line doc => is_response (recovered_id line) doc)
            (filter (fun line => negb (blank line)) stdin)
            (stdout_of (concat blocks)).
Proof.
  destruct (command_loop_blocks stdin w) as (w' & blocks & Hloop & Htrace & Hblocks).
  exists w', blocks.
  destruct (blocks_io stdin blocks Hblocks) as [Hreads Hresponses].
  split; [exact Hloop |].
  split; [exact Htrace |].
  split; [exact Hblocks |].
  split; [exact Hreads | exact Hresponses].
Qed.
End Protocol.

(** ** Requests that fail *)

Section Failures.
Context {rt : PyRuntime} {S Group : Type} {server : ServerPrx S Group}.

(** A line that decodes to an object reaches [dispatch] with the members
    [method] and [params], or their defaults. *)
Lemma handle_request_object line d (w : world S Group) :
  json_loads line = inl (PDict d) ->
  handle_request line w =
    (let (r, w') := dispatch (member d "method" (PStr "")) (member d "params" (PDict [])) w in
     (r, member d "id" (PStr ""), w')).
Proof.
  intros H. unfold handle_request. rewrite H. reflexivity.
Qed.

Lemma recovered_id_object line d :
  json_loads (strip line) = inl (PDict d) -> recovered_id line = member d "id" (PStr "").
Proof. intros H. unfold recovered_id. rewrite H. reflexivity. Qed.

(** A request that raises [e] is answered by the error line of [e], and
    the loop goes on with the lines that follow. *)
Lemma command_loop_error line rest (w w1 : world S Group) e req_id :
  blank line = false ->
  handle_request (strip line) (log (ReadLine line) w) = (Raise e, req_id, w1) ->
  command_loop (line :: rest) w =
    command_loop rest (log (Stdout (error_line req_id e)) w1).
Proof.
  intros Hb Hh. apply command_loop_cons.
  destruct (process_line_request line (log (ReadLine line) w) Hb)
    as (r & req_id' & w1' & Hh' & Hp).
  rewrite Hh in Hh'. inversion Hh'; subst. exact Hp.
Qed.

(** A request that decodes to an object is answered by what [dispatch]
    returns or raises for its [method] and [params]: the line written
    holds the id and then the result, or the error. *)
Lemma command_loop_answer line rest d (w w1 : world S Group) r :
  blank line = false ->
  json_loads (strip line) = inl (PDict d) ->
  dispatch (member d "method" (PStr "")) (member d "params" (PDict []))
           (log (ReadLine line) w) = (r, w1) ->
  command_loop (line :: rest) w =
    command_loop rest
      (log (Stdout (PDict [(KStr "id", recovered_id line);
                           match r with
                           | Ok result => (KStr "result", result)
                           | Raise e => (KStr "error", PStr (error_message e))
                           end])) w1).
Proof.
  intros Hb Hj Hd. apply command_loop_cons.
  destruct (process_line_request line (log (ReadLine line) w) Hb)
    as (r' & req_id & w1' & Hh & Hp).
  rewrite (handle_request_object _ _ _ Hj), Hd in Hh. inversion Hh; subst.
  rewrite Hp, (recovered_id_object _ _ Hj). destruct r'; reflexivity.
Qed.

Lemma dispatch_unknown method params (w : world S Group) :
  is_known method = false ->
  dispatch method params w = (Raise (ValueError ("Unknown method: " ++ py_str method)), w).
Proof.
  unfold is_known, known_methods. simpl existsb. intros H.
  repeat (apply orb_false_elim in H; destruct H as [?H H]).
  unfold dispatch.
  repeat match goal with Hm : method_is method _ = false |- _ => rewrite Hm; clear Hm end.
  reflexivity.
Qed.

(** C3.  A method that is none of the seven names of the operation table
    makes [dispatch] raise, whatever the parameters, and leave the world
    as it was: no remote call is made.  The request is answered by the
    error ["Unknown method: "] followed by the method as [str] writes it
    (the name itself when the method is a string), and the loop goes on. *)
Theorem unknown_method_is_local_error (method : pyval) :
  is_known method = false ->
  (forall params (w : world S Group),
      dispatch method params w =
        (Raise (ValueError ("Unknown method: " ++ py_str method)), w)) /\
  (forall name, method = PStr name -> py_str method = name) /\
  (forall line rest d (w : world S Group),
      blank line = false ->
      json_loads (strip line) = inl (PDict d) ->
      member d "method" (PStr "") = method ->
      command_loop (line :: rest) w =
        command_loop rest
          (log (Stdout (PDict [(KStr "id", recovered_id line);
                               (KStr "error", PStr ("Unknown method: " ++ py_str method))]))
               (log (ReadLine line) w))).
Proof.
  intros Hk. split; [| split].
  - intros params w. apply dispatch_unknown. exact Hk.
  - intros name ->. reflexivity.
  - intros line rest d w Hb Hj Hm.
    rewrite (recovered_id_object _ _ Hj).
    apply (command_loop_error line rest w _ (ValueError ("Unknown method: " ++ py_str method)) _ Hb).
    rewrite (handle_request_object _ _ _ Hj), Hm, (dispatch_unknown _ _ _ Hk).
    reflexivity.
Qed.

(** C10.  A line that decodes to a JSON value that is not an object is
    answered by exactly one error response whose id is the empty string
    (the error of calling [get] on that value); no remote call is made and
    the loop goes on with the lines that follow. *)
Theorem non_object_line_is_answered (line : string) (rest : list string) (v : pyval)
    (w : world S Group) :
  blank line = false ->
  json_loads (strip line) = inl v ->
  is_object v = false ->
  command_loop (line :: rest) w =
    command_loop rest
      (log (Stdout (PDict [(KStr "id", PStr "");
                           (KStr "error",
                            PStr ("'" ++ type_name v ++ "' object has no attribute 'get'"))]))
           (log (ReadLine line) w)).
Proof.
  intros Hb Hj Ho.
  apply (command_loop_error line rest w _
           (AttributeError ("'" ++ type_name v ++ "' object has no attribute 'get'")) _ Hb).
  unfold handle_request. rewrite Hj.
  destruct v; try discriminate Ho; reflexivity.
Qed.

(** C4.  Whatever a request raises, the loop writes one error response
    for it and goes on with the lines that follow, in the world the
    request left: the communicator is not destroyed.  The error is
    ["Murmur: "] and the name of the class for an invalid user or channel,
    a fixed text that names the secret's setting for an invalid secret,
    and the text of the exception for any other. *)
Theorem failure_translator (line : string) (rest : list string) (w w1 : world S Group)
    (e : exn) (req_id : pyval) :
  blank line = false ->
  handle_request (strip line) (log (ReadLine line) w) = (Raise e, req_id, w1) ->
  command_loop (line :: rest) w =
    command_loop rest
      (log (Stdout (PDict [(KStr "id", req_id); (KStr "error", PStr (error_message e))])) w1) /\
  count is_destroyed (trace w1) = count is_destroyed (trace w) /\
  match e with
  | InvalidUserException _ => error_message e = "Murmur: InvalidUserException"
  | InvalidChannelException _ => error_message e = "Murmur: InvalidChannelException"
  | InvalidSecretException _ =>
      error_message e = "Murmur: InvalidSecret — check MUMBLE_ICE_SECRET"
  | OtherException _ text => error_message e = text
  end.
Proof.
  intros Hb Hh. split; [| split].
  - exact (command_loop_error line rest w w1 e req_id Hb Hh).
  - apply handle_request_dispatched in Hh. destruct Hh as [_ Hd].
    unfold count. inversion Hd; subst; simpl; rewrite ?filter_app; simpl;
      rewrite ?app_nil_r; reflexivity.
  - destruct e; reflexivity.
Qed.
End Failures.

(** ** The operation dispatcher *)

Section Dispatcher.
Context {rt : PyRuntime} {S Group : Type} {server : ServerPrx S Group}.

Lemma error_message_local e : is_local e -> error_message e = exn_str e.
Proof. destruct e; simpl; intros H; try contradiction; reflexivity. Qed.

Ltac local_case :=
  repeat match goal with
         | H : Ok _ = Raise _ |- _ => discriminate H
         | H : Raise _ = Raise _ |- _ => inversion H; subst; clear H
         | H : context [match ?x with _ => _ end] |- _ => destruct x eqn:?
         end;
  try exact I.

Lemma py_get_local obj key default e : py_get obj key default = Raise e -> is_local e.
Proof. unfold py_get. intros H. local_case. Qed.

Lemma py_getitem_local obj key e : py_getitem obj key = Raise e -> is_local e.
Proof. unfold py_getitem. intros H. local_case. Qed.

Lemma py_contains_local key obj e : py_contains key obj = Raise e -> is_local e.
Proof. unfold py_contains. intros H. local_case. Qed.

Lemma py_iter_local obj e : py_iter obj = Raise e -> is_local e.
Proof. unfold py_iter. intros H. local_case. Qed.

Lemma py_int_local v e : py_int v = Raise e -> is_local e.
Proof. unfold py_int, int_of_float. intros H. local_case. Qed.

Lemma and_then_raise {A B} (o : outcome A) (f : A -> outcome B) e :
  and_then o f = Raise e ->
  o = Raise e \/ exists a, o = Ok a /\ f a = Raise e.
Proof.
  destruct o as [a | e0]; simpl; intros H.
  - right. exists a. split; [reflexivity | exact H].
  - left. inversion H; reflexivity.
Qed.

(** Peel the steps of a pure computation that raised. *)
Ltac peel H :=
  repeat (apply and_then_raise in H;
          destruct H as [H | (? & _ & H)];
          [ first [ exact (py_get_local _ _ _ _ H)
                  | exact (py_getitem_local _ _ _ H)
                  | exact (py_contains_local _ _ _ H)
                  | exact (py_iter_local _ _ H)
                  | exact (py_int_local _ _ H) ] | ]).

Lemma acl_of_item_local a e : acl_of_item a = Raise e -> is_local e.
Proof. unfold acl_of_item. intros H. peel H. discriminate H. Qed.

Lemma traverse_local {A B} (f : A -> outcome B) :
  (forall a e, f a = Raise e -> is_local e) ->
  forall l e, traverse f l = Raise e -> is_local e.
Proof.
  intros Hf. induction l as [| x rest IH]; simpl; intros e H; [discriminate H |].
  destruct (f x) eqn:Hx.
  - destruct (traverse f rest) eqn:Hr; [discriminate H |].
    inversion H; subst. apply IH. reflexivity.
  - inversion H; subst. exact (Hf _ _ Hx).
Qed.

Lemma acls_of_params_local params e : acls_of_params params = Raise e -> is_local e.
Proof.
  unfold acls_of_params. intros H. peel H.
  exact (traverse_local _ acl_of_item_local _ _ H).
Qed.

Lemma info_of_updates_local params e : info_of_updates params = Raise e -> is_local e.
Proof.
  unfold info_of_updates. intros H.
  apply and_then_raise in H. destruct H as [H | (updates & _ & H)];
    [exact (py_get_local _ _ _ _ H) |].
  apply and_then_raise in H. destruct H as [H | ([] & _ & H)];
    [exact (py_contains_local _ _ _ H) | |].
  - apply and_then_raise in H. destruct H as [H | (info & _ & H)].
    + peel H. discriminate H.
    + apply and_then_raise in H. destruct H as [H | ([] & _ & H)];
        [exact (py_contains_local _ _ _ H) | |].
      * apply and_then_raise in H. destruct H as [H | (? & _ & H)]; [| discriminate H].
        peel H. discriminate H.
      * simpl in H. discriminate H.
  - apply and_then_raise in H. destruct H as [H | (info & _ & H)]; [discriminate H |].
    apply and_then_raise in H. destruct H as [H | ([] & _ & H)];
      [exact (py_contains_local _ _ _ H) | |].
    + apply and_then_raise in H. destruct H as [H | (? & _ & H)]; [| discriminate H].
      peel H. discriminate H.
    + simpl in H. discriminate H.
Qed.
Lemma bind_lift {A B} (o : outcome A) (f : A -> M S Group B) (w : world S Group) :
  bind (lift o) f w = match o with
                      | Ok a => f a w
                      | Raise e => (Raise e, w)
                      end.
Proof. unfold bind, lift. destruct o; reflexivity. Qed.

Lemma bind_invoke {A B} c (g : S -> outcome A * S) (f : A -> M S Group B)
    (w : world S Group) :
  bind (invoke c g) f w =
    match fst (g (server_state w)) with
    | Ok a => f a (mkWorld (snd (g (server_state w))) (trace w ++ [RemoteCall c]))
    | Raise e => (Raise e, mkWorld (snd (g (server_state w))) (trace w ++ [RemoteCall c]))
    end.
Proof.
  unfold bind, invoke. destruct (g (server_state w)) as [[a | e] s']; reflexivity.
Qed.

(** The branch of [dispatch] for each operation. *)
Lemma dispatch_unregisterUser params :
  dispatch (PStr "unregisterUser") params =
    (v <- lift (py_getitem params "userId") ;;
     userId <- lift (py_int v) ;;
     invoke (Call_unregisterUser userId) (fun s => unregisterUser s userId) ;;
     ret PNone).
Proof. reflexivity. Qed.

Lemma dispatch_updateRegistration params :
  dispatch (PStr "updateRegistration") params =
    (info <- lift (info_of_updates params) ;;
     v <- lift (py_getitem params "userId") ;;
     userId <- lift (py_int v) ;;
     invoke (Call_updateRegistration userId info)
            (fun s => updateRegistration s userId info) ;;
     ret PNone).
Proof. reflexivity. Qed.

Lemma dispatch_getRegisteredUsers params :
  dispatch (PStr "getRegisteredUsers") params =
    (filter <- lift (py_get params "filter" (PStr "")) ;;
     result <- invoke (Call_getRegisteredUsers filter)
                      (fun s => getRegisteredUsers s filter) ;;
     ret (PDict (dict_of_items str_of_int result))).
Proof. reflexivity. Qed.

Lemma dispatch_setACL params :
  dispatch (PStr "setACL") params =
    (acls <- lift (acls_of_params params) ;;
     v <- lift (py_getitem params "channelId") ;;
     channelId <- lift (py_int v) ;;
     inherit <- lift (py_get params "inherit" (PBool true)) ;;
     invoke (Call_setACL channelId acls [] (py_bool inherit))
            (fun s => setACL s channelId acls [] (py_bool inherit)) ;;
     ret PNone).
Proof. reflexivity. Qed.

Lemma dispatch_getACL params :
  dispatch (PStr "getACL") params =
    (v <- lift (py_getitem params "channelId") ;;
     channelId <- lift (py_int v) ;;
     reply <- invoke (Call_getACL channelId) (fun s => getACL s channelId) ;;
     let '(acls, groups, inherit) := reply in
     ret (PDict [ (KStr "acls", PList (map acl_to_dict acls));
                  (KStr "inherit", PBool inherit) ])).
Proof. reflexivity. Qed.

Lemma dispatch_getRegistration params :
  dispatch (PStr "getRegistration") params =
    (v <- lift (py_getitem params "userId") ;;
     userId <- lift (py_int v) ;;
     result <- invoke (Call_getRegistration userId) (fun s => getRegistration s userId) ;;
     ret (PDict (dict_of_items field_name result))).
Proof. reflexivity. Qed.

Ltac solve_local :=
  first [ eapply py_getitem_local; eassumption
        | eapply py_int_local; eassumption
        | eapply py_get_local; eassumption
        | eapply acls_of_params_local; eassumption
        | eapply info_of_updates_local; eassumption ].



(** *** String keys *)

Lemma to_int_not_nil z : Z.to_int z <> Decimal.Pos Decimal.Nil /\ Z.to_int z <> Decimal.Neg Decimal.Nil.
Proof.
  destruct z as [| p | p]; simpl; split; try discriminate;
    intros H; injection H as H; exact (Unsigned.to_uint_nonnil p H).
Qed.

(** [str] of an integer reads back as that integer. *)
Lemma str_of_int_parse z : NilZero.int_of_string (str_of_int z) = Some (Z.to_int z).
Proof.
  unfold str_of_int. destruct (to_int_not_nil z) as [Hp Hn].
  apply NilZero.isi; assumption.
Qed.

Lemma str_of_int_inj a b : str_of_int a = str_of_int b -> a = b.
Proof.
  intros H. apply DecimalZ.to_int_inj.
  assert (Hs : Some (Z.to_int a) = Some (Z.to_int b))
    by (rewrite <- !str_of_int_parse, H; reflexivity).
  injection Hs as Hs. exact Hs.
Qed.

(** A field index is named by [name_map], or by its own digits. *)
Lemma field_name_cases k :
  (In (k, field_name k) name_map /\ NilZero.int_of_string (field_name k) = None) \/
  ((k < 0 \/ 6 < k) /\ field_name k = str_of_int k).
Proof.
  unfold field_name, name_map. simpl assoc_get.
  repeat match goal with
         | |- context [Z.eqb k ?n] => destruct (Z.eqb_spec k n) as [-> | ?]
         end;
    try (left; split; [simpl; tauto | reflexivity]).
  right. split; [lia | reflexivity].
Qed.

Lemma field_name_inj a b : field_name a = field_name b -> a = b.
Proof.
  intros H.
  destruct (field_name_cases a) as [[Ha Pa] | [_ Ha]];
    destruct (field_name_cases b) as [[Hb Pb] | [_ Hb]].
  - rewrite <- H in Hb. simpl in Ha, Hb.
    repeat match goal with
           | H : _ \/ _ |- _ => destruct H as [H | H]
           | H : False |- _ => destruct H
           end;
      congruence.
  - rewrite H, Hb, str_of_int_parse in Pa. discriminate Pa.
  - rewrite <- H, Ha, str_of_int_parse in Pb. discriminate Pb.
  - rewrite Ha, Hb in H. exact (str_of_int_inj _ _ H).
Qed.

Lemma assoc_set_fresh k v (d : list (pykey * pyval)) :
  assoc_get pykey_eqb k d = None -> dict_set k v d = d ++ [(k, v)].
Proof.
  unfold dict_set.
  induction d as [| [k' v'] rest IH]; simpl; [reflexivity |].
  destruct (pykey_eqb k k'); [discriminate |].
  intros H. rewrite IH by exact H. reflexivity.
Qed.

Lemma assoc_get_snoc k k' v (d : list (pykey * pyval)) :
  assoc_get pykey_eqb k d = None -> pykey_eqb k k' = false ->
  assoc_get pykey_eqb k (d ++ [(k', v)]) = None.
Proof.
  induction d as [| [k0 v0] rest IH]; simpl.
  - intros _ ->. reflexivity.
  - destruct (pykey_eqb k k0); [discriminate |]. exact IH.
Qed.

Lemma fold_dict_set (key : Z -> string) (items : list (Z * string)) :
  (forall a b, key a = key b -> a = b) ->
  NoDup (map fst items) ->
  forall acc,
    (forall kv, In kv items -> assoc_get pykey_eqb (KStr (key (fst kv))) acc = None) ->
    fold_left (fun d kv => dict_set (KStr (key (fst kv))) (PStr (snd kv)) d) items acc =
      acc ++ map (fun kv => (KStr (key (fst kv)), PStr (snd kv))) items.
Proof.
  intros Hinj.
  induction items as [| [k v] rest IH]; intros Hnd acc Hfresh; simpl.
  - rewrite app_nil_r. reflexivity.
  - inversion Hnd as [| ? ? Hk Hrest]; subst.
    rewrite assoc_set_fresh by (apply (Hfresh (k, v)); left; reflexivity).
    rewrite IH.
    + rewrite <- app_assoc. reflexivity.
    + exact Hrest.
    + intros kv Hin. apply assoc_get_snoc.
      * apply Hfresh. right. exact Hin.
      * simpl. apply String.eqb_neq. intros Heq. apply Hinj in Heq.
        apply Hk. rewrite <- Heq. apply in_map. exact Hin.
Qed.

(** The comprehension keeps one item per key, in order, when the keys it
    makes are distinct. *)
Lemma dict_of_items_map (key : Z -> string) (items : list (Z * string)) :
  (forall a b, key a = key b -> a = b) ->
  NoDup (map fst items) ->
  dict_of_items key items =
    map (fun kv => (KStr (key (fst kv)), PStr (snd kv))) items.
Proof.
  intros Hinj Hnd. unfold dict_of_items.
  rewrite (fold_dict_set key items Hinj Hnd []); [reflexivity |].
  intros kv _. reflexivity.
Qed.

Lemma dict_set_string_entries k v d :
  Forall string_entry d -> Forall string_entry (dict_set (KStr k) (PStr v) d).
Proof.
  unfold dict_set.
  induction d as [| [k' v'] rest IH]; simpl; intros H.
  - constructor; [exists k, v; reflexivity | constructor].
  - inversion H; subst.
    match goal with |- context [if ?b then _ else _] => destruct b end.
    + constructor; [exists k, v; reflexivity | assumption].
    + constructor; [assumption | apply IH; assumption].
Qed.

Lemma dict_of_items_string_entries key items :
  Forall string_entry (dict_of_items key items).
Proof.
  unfold dict_of_items.
  assert (H : Forall string_entry (@nil (pykey * pyval))) by constructor.
  revert H. generalize (@nil (pykey * pyval)) as acc.
  induction items as [| kv rest IH]; intros acc H; simpl; [exact H |].
  apply IH. apply dict_set_string_entries. exact H.
Qed.

(** C6.  The response written for [getRegisteredUsers] carries as its
    [result] an object that holds, under the decimal digits of each user
    id as a string key, the name of that user, and the response written
    for [getRegistration] carries as its [result] an object that holds
    each field under the name that the indices 0 to 6 have, and under the
    digits of its index for any other index; the entries are in the order
    of the remote result, whose keys are distinct.  Whatever the remote
    result, every key of either object is a string. *)
Theorem responses_have_string_keys (params : pyval) (w : world S Group) :
  (forall filter users s',
      py_get params "filter" (PStr "") = Ok filter ->
      getRegisteredUsers (server_state w) filter = (Ok users, s') ->
      exists d,
        dispatch (PStr "getRegisteredUsers") params w =
          (Ok (PDict d),
           mkWorld s' (trace w ++ [RemoteCall (Call_getRegisteredUsers filter)])) /\
        Forall string_entry d /\
        (NoDup (map fst users) ->
         d = map (fun kv => (KStr (str_of_int (fst kv)), PStr (snd kv))) users) /\
        (forall line rest req (w0 : world S Group),
            blank line = false ->
            json_loads (strip line) = inl (PDict req) ->
            member req "method" (PStr "") = PStr "getRegisteredUsers" ->
            member req "params" (PDict []) = params ->
            w = log (ReadLine line) w0 ->
            command_loop (line :: rest) w0 =
              command_loop rest
                (log (Stdout (PDict [(KStr "id", recovered_id line);
                                     (KStr "result", PDict d)]))
                     (mkWorld s'
                        (trace w ++ [RemoteCall (Call_getRegisteredUsers filter)]))))) /\
  (forall v userId fields s',
      py_getitem params "userId" = Ok v ->
      py_int v = Ok userId ->
      getRegistration (server_state w) userId = (Ok fields, s') ->
      exists d,
        dispatch (PStr "getRegistration") params w =
          (Ok (PDict d),
           mkWorld s' (trace w ++ [RemoteCall (Call_getRegistration userId)])) /\
        Forall string_entry d /\
        (NoDup (map fst fields) ->
         d = map (fun kv => (KStr (field_name (fst kv)), PStr (snd kv))) fields) /\
        (forall line rest req (w0 : world S Group),
            blank line = false ->
            json_loads (strip line) = inl (PDict req) ->
            member req "method" (PStr "") = PStr "getRegistration" ->
            member req "params" (PDict []) = params ->
            w = log (ReadLine line) w0 ->
            command_loop (line :: rest) w0 =
              command_loop rest
                (log (Stdout (PDict [(KStr "id", recovered_id line);
                                     (KStr "result", PDict d)]))
                     (mkWorld s'
                        (trace w ++ [RemoteCall (Call_getRegistration userId)]))))) /\
  map field_name [0; 1; 2; 3; 4; 5; 6] =
    ["UserName"; "UserEmail"; "UserComment"; "UserHash"; "UserPassword";
     "UserLastActive"; "UserKDFIterations"]%string /\
  (forall k, k < 0 \/ 6 < k -> field_name k = str_of_int k).
Proof.
  split; [| split; [| split]].
  - intros filter users s' Hf Hr.
    assert (Hd : dispatch (PStr "getRegisteredUsers") params w =
                   (Ok (PDict (dict_of_items str_of_int users)),
                    mkWorld s' (trace w ++ [RemoteCall (Call_getRegisteredUsers filter)]))).
    { rewrite dispatch_getRegisteredUsers, bind_lift, Hf, bind_invoke, Hr. reflexivity. }
    exists (dict_of_items str_of_int users).
    split; [exact Hd | split; [| split]].
    + apply dict_of_items_string_entries.
    + apply dict_of_items_map. exact str_of_int_inj.
    + intros line rest req w0 Hb Hj Hm Hp Hw.
      apply (command_loop_answer line rest req w0 _
               (Ok (PDict (dict_of_items str_of_int users))) Hb Hj).
      rewrite Hm, Hp, <- Hw. exact Hd.
  - intros v userId fields s' Hv Hn Hr.
    assert (Hd : dispatch (PStr "getRegistration") params w =
                   (Ok (PDict (dict_of_items field_name fields)),
                    mkWorld s' (trace w ++ [RemoteCall (Call_getRegistration userId)]))).
    { rewrite dispatch_getRegistration, bind_lift, Hv, bind_lift, Hn, bind_invoke, Hr.
      reflexivity. }
    exists (dict_of_items field_name fields).
    split; [exact Hd | split; [| split]].
    + apply dict_of_items_string_entries.
    + apply dict_of_items_map. exact field_name_inj.
    + intros line rest req w0 Hb Hj Hm Hp Hw.
      apply (command_loop_answer line rest req w0 _
               (Ok (PDict (dict_of_items field_name fields))) Hb Hj).
      rewrite Hm, Hp, <- Hw. exact Hd.
  - reflexivity.
  - intros k Hk.
    destruct (field_name_cases k) as [[Hin _] | [_ H]]; [| exact H].
    simpl in Hin.
    repeat match goal with
           | H : _ \/ _ |- _ => destruct H as [H | H]
           | H : False |- _ => destruct H
           | H : (_, _) = (_, _) |- _ => injection H as ? ?
           end;
      lia.
Qed.
(** *** Access-control lists *)




(** C8.  When the remote call of [getACL] returns, the response
    written carries as its [result] an object with exactly two members:
    [acls], the list of the entries in the order the server gave them,
    each an object with the seven fields of an entry, and [inherit], the
    flag the server gave.  The group definitions the server returned are
    not in it. *)
Theorem getACL_response_drops_groups (params : pyval) (w : world S Group) (v : pyval)
    (channelId : Z) (acls : list ACL) (groups : list Group) (inherit : bool) (s' : S) :
  py_getitem params "channelId" = Ok v ->
  py_int v = Ok channelId ->
  getACL (server_state w) channelId = (Ok (acls, groups, inherit), s') ->
  dispatch (PStr "getACL") params w =
    (Ok (PDict [(KStr "acls", PList (map acl_to_dict acls));
                (KStr "inherit", PBool inherit)]),
     mkWorld s' (trace w ++ [RemoteCall (Call_getACL channelId)])) /\
  (forall a,
      acl_to_dict a =
        PDict [(KStr "applyHere", PBool (applyHere a));
               (KStr "applySubs", PBool (applySubs a));
               (KStr "inherited", PBool (inherited a));
               (KStr "userid", PInt (userid a));
               (KStr "group", PStr (group a));
               (KStr "allow", PInt (allow a));
               (KStr "deny", PInt (deny a))]) /\
  (forall line rest req (w0 : world S Group),
      blank line = false ->
      json_loads (strip line) = inl (PDict req) ->
      member req "method" (PStr "") = PStr "getACL" ->
      member req "params" (PDict []) = params ->
      w = log (ReadLine line) w0 ->
      command_loop (line :: rest) w0 =
        command_loop rest
          (log (Stdout (PDict [(KStr "id", recovered_id line);
                               (KStr "result",
                                PDict [(KStr "acls", PList (map acl_to_dict acls));
                                       (KStr "inherit", PBool inherit)])]))
               (mkWorld s' (trace w ++ [RemoteCall (Call_getACL channelId)])))).
Proof.
  intros Hv Hn Hr.
  assert (Hd : dispatch (PStr "getACL") params w =
                 (Ok (PDict [(KStr "acls", PList (map acl_to_dict acls));
                             (KStr "inherit", PBool inherit)]),
                  mkWorld s' (trace w ++ [RemoteCall (Call_getACL channelId)]))).
  { rewrite dispatch_getACL, bind_lift, Hv, bind_lift, Hn, bind_invoke, Hr. reflexivity. }
  split; [exact Hd | split].
  - intros a. reflexivity.
  - intros line rest req w0 Hb Hj Hm Hp Hw.
    apply (command_loop_answer line rest req w0 _
             (Ok (PDict [(KStr "acls", PList (map acl_to_dict acls));
                         (KStr "inherit", PBool inherit)])) Hb Hj).
    rewrite Hm, Hp, <- Hw. exact Hd.
Qed.
End Dispatcher.

(** ** The process *)

Section Lifecycle.
Context {rt : PyRuntime} {ice : IceRuntime} {S Group : Type}
        {server : ServerPrx S Group}.

Lemma response_not_ready req_id doc : is_response req_id doc -> doc <> ready_line.
Proof. intros [[x ->] | [x ->]]; discriminate. Qed.

Lemma responses_not_ready {A} (R : A -> pyval -> Prop) (l : list A) (docs : list pyval) :
  (forall a doc, R a doc -> doc <> ready_line) ->
  Forall2 R l docs -> ~ In ready_line docs.
Proof.
  intros HR. induction 1 as [| a doc l docs Hd _ IH]; simpl; [tauto |].
  intros [Heq | Hin]; [exact (HR _ _ Hd Heq) | exact (IH Hin)].
Qed.

(** [create_communicator], step by step. *)
Lemma create_communicator_run host port secret (w : world S Group) :
  create_communicator host port secret w =
    match createProperties with
    | Raise e => (Raise e, w)
    | Ok _ =>
        match initialize with
        | Raise e => (Raise e, w)
        | Ok _ =>
            if String.eqb secret ""
            then (Ok tt, log CommunicatorCreated w)
            else (put_secret secret, log CommunicatorCreated w)
        end
    end.
Proof.
  unfold create_communicator, bind, lift, emit, ret, log.
  destruct createProperties; [| reflexivity].
  destruct initialize; [| reflexivity].
  simpl. destruct (String.eqb secret ""); reflexivity.
Qed.

(** The rest of the outer [try], step by step. *)
Lemma session_run host port stdin (w : world S Group) :
  session host port stdin w =
    let proxy := ("Meta:tcp -h " ++ host ++ " -p " ++ str_of_int port)%string in
    match stringToProxy proxy with
    | Raise e => (Raise e, w)
    | Ok _ =>
        match checkedCast proxy with
        | Raise e => (Raise e, w)
        | Ok false =>
            (Raise (RuntimeError "Cannot cast ICE proxy to Murmur.Meta — wrong host/port?"),
             w)
        | Ok true =>
            match getServer 1 with
            | Raise e => (Raise e, log MetaResolved w)
            | Ok false =>
                (Raise (RuntimeError
                          "getServer(1) returned null — is virtual server 1 running?"),
                 log MetaResolved w)
            | Ok true =>
                command_loop stdin
                  (log (Stdout ready_line) (log (ServerResolved 1) (log MetaResolved w)))
            end
        end
    end.
Proof.
  unfold session, bind, lift, emit, raise, log. cbv zeta.
  destruct (stringToProxy _); [| reflexivity].
  destruct (checkedCast _) as [[|] |]; try reflexivity.
  simpl. destruct (getServer 1) as [[|] |]; reflexivity.
Qed.

Lemma established_port port :
  configured_port = inl port -> session_established -> established port.
Proof.
  intros Hp (p & Hp' & H). rewrite Hp in Hp'. inversion Hp'; subst. exact H.
Qed.

Ltac fail_with Hp e :=
  unfold log; simpl;
  eexists; split; [rewrite <- ?app_assoc; reflexivity |];
  right; split;
  [ let H := fresh "H" in
    intros H; apply (established_port _ Hp) in H;
    unfold established in H; decompose [and or] H; congruence
  | repeat split; exists e; right; reflexivity ].

(** C2.  The trace of the process is one of two.  When every step of
    start-up succeeds, the process exits with status 0 and its trace is:
    the communicator, the Meta proxy and virtual server 1 obtained; then
    the ready line; then the command loop, in which every line of the
    input is read and no ready line is written; then the release of the
    communicator.  Otherwise (the port is not an integer, or a step of
    start-up raises or returns no proxy) the process exits with status 1,
    has written nothing to standard output and read no line, and has
    written to standard error the traceback of the exception, preceded by
    the line ["[mumble-ice] Fatal: "] and its text when it was raised
    inside the [try]. *)
Theorem ready_only_after_session_is_established (stdin : list string)
    (w : world S Group) :
  exists evs,
    trace (snd (main stdin w)) = trace w ++ evs /\
    ((session_established /\
      fst (main stdin w) = 0 /\
      exists loop,
        evs = [CommunicatorCreated; MetaResolved; ServerResolved 1; Stdout ready_line]
                ++ loop ++ [CommunicatorDestroyed] /\
        reads_of loop = stdin /\
        ~ In ready_line (stdout_of loop))
     \/
     (~ session_established /\
      fst (main stdin w) = 1 /\
      stdout_of evs = [] /\
      reads_of evs = [] /\
      exists e,
        stderr_of evs = [Traceback e] \/
        stderr_of evs = [Stderr ("[mumble-ice] Fatal: " ++ exn_str e); Traceback e])).
Proof.
  destruct configured_port as [port | text] eqn:Hp.
  2:{ unfold main. fold configured_port. rewrite Hp.
      exists [Traceback (ValueError text)]. split; [reflexivity |].
      right. split; [intros (p & Hp' & _); rewrite Hp in Hp'; discriminate Hp' |].
      repeat split. exists (ValueError text). left. reflexivity. }
  unfold main. fold configured_port. rewrite Hp.
  cbv zeta. rewrite create_communicator_run.
  destruct createProperties as [[] | e] eqn:Hc; [| fail_with Hp e].
  destruct initialize as [[] | e] eqn:Hi; [| fail_with Hp e].
  assert (Hsecret :
            (environ_get "MUMBLE_ICE_SECRET" "" = ""%string \/
             put_secret (environ_get "MUMBLE_ICE_SECRET" "") = Ok tt) \/
            exists e, environ_get "MUMBLE_ICE_SECRET" "" <> ""%string /\
                      put_secret (environ_get "MUMBLE_ICE_SECRET" "") = Raise e).
  { destruct (String.eqb_spec (environ_get "MUMBLE_ICE_SECRET" "") "") as [Hs | Hs];
      [left; left; exact Hs |].
    destruct (put_secret _) as [[] | e];
      [left; right; reflexivity | right; exists e; split; [exact Hs | reflexivity]]. }
  destruct Hsecret as [Hs | (e & Hs & Hput)].
  2:{ apply String.eqb_neq in Hs. rewrite Hs, Hput. apply String.eqb_neq in Hs.
      fail_with Hp e. }
  assert (Hcreated :
            (if String.eqb (environ_get "MUMBLE_ICE_SECRET" "") ""
             then (Ok tt, log CommunicatorCreated w)
             else (put_secret (environ_get "MUMBLE_ICE_SECRET" ""),
                   log CommunicatorCreated w)) = (Ok tt, log CommunicatorCreated w)).
  { destruct Hs as [Hs | Hs].
    - rewrite Hs. reflexivity.
    - rewrite Hs. destruct (String.eqb _ _); reflexivity. }
  rewrite Hcreated. rewrite session_run. cbv zeta.
  destruct (stringToProxy _) as [[] | e] eqn:Hx; [| fail_with Hp e].
  destruct (checkedCast _) as [[|] | e] eqn:Hm;
    [| fail_with Hp (RuntimeError "Cannot cast ICE proxy to Murmur.Meta — wrong host/port?")
     | fail_with Hp e].
  destruct (getServer 1) as [[|] | e] eqn:Hg;
    [| fail_with Hp (RuntimeError "getServer(1) returned null — is virtual server 1 running?")
     | fail_with Hp e].
  destruct (command_loop_trace stdin
              (log (Stdout ready_line)
                 (log (ServerResolved 1) (log MetaResolved (log CommunicatorCreated w)))))
    as (w1 & blocks & Hl & Ht & _ & Hr & Hresp).
  rewrite Hl. simpl fst; simpl snd.
  exists ([CommunicatorCreated; MetaResolved; ServerResolved 1; Stdout ready_line]
            ++ concat blocks ++ [CommunicatorDestroyed]).
  split.
  { rewrite log_trace, Ht, !log_trace. rewrite <- !app_assoc. reflexivity. }
  left. split; [| split; [reflexivity |]].
  - exists port. split; [exact Hp |].
    unfold established. cbv zeta. repeat split; assumption.
  - exists (concat blocks). split; [reflexivity | split; [exact Hr |]].
    apply (responses_not_ready _ _ _ (fun line doc => response_not_ready _ doc) Hresp).
Qed.

(** *** The communicator *)

Lemma count_app {A} (p : A -> bool) (a b : list A) :
  count p (a ++ b) = (count p a + count p b)%nat.
Proof. unfold count. rewrite filter_app, length_app. reflexivity. Qed.

Lemma count_calls (p : event Group -> bool) (calls : list (remote_call Group)) :
  (forall c, p (RemoteCall c) = false) ->
  count p (map (@RemoteCall Group) calls) = 0%nat.
Proof.
  intros Hp. unfold count. induction calls as [| c rest IH]; simpl; [reflexivity |].
  rewrite Hp. exact IH.
Qed.

(** The command loop neither creates nor destroys a communicator. *)
Lemma blocks_keep_communicator stdin (blocks : list (list (event Group))) :
  Forall2 line_block stdin blocks ->
  count is_created (concat blocks) = 0%nat /\ count is_destroyed (concat blocks) = 0%nat.
Proof.
  induction 1 as [| line block rest blocks Hb _ [IHc IHd]]; simpl.
  - split; reflexivity.
  - rewrite !count_app, IHc, IHd.
    unfold line_block in Hb. destruct (blank line).
    + subst block. split; reflexivity.
    + destruct Hb as (calls & doc & -> & _ & _).
      change (ReadLine line :: map (@RemoteCall Group) calls ++ [Stdout doc])
        with ([ReadLine line] ++ map (@RemoteCall Group) calls ++ [Stdout doc]).
      rewrite !count_app, !count_calls by reflexivity.
      split; reflexivity.
Qed.

(** C9.  When a secret is configured and putting it in the implicit
    context raises, after [Ice.initialize] has returned a communicator,
    the process reports the error and exits with status 1 without
    destroying the communicator: [create_communicator] raised before
    [main] bound the communicator it would destroy. *)
Theorem communicator_left_open_when_secret_fails (stdin : list string)
    (w : world S Group) (port : Z) (e : exn) :
  configured_port = inl port ->
  createProperties = Ok tt ->
  initialize = Ok tt ->
  environ_get "MUMBLE_ICE_SECRET" "" <> ""%string ->
  put_secret (environ_get "MUMBLE_ICE_SECRET" "") = Raise e ->
  let evs := [CommunicatorCreated;
              Stderr ("[mumble-ice] Fatal: " ++ exn_str e);
              Traceback e] in
  main stdin w = (1, mkWorld (server_state w) (trace w ++ evs)) /\
  count is_created evs = 1%nat /\
  count is_destroyed evs = 0%nat.
Proof.
  intros Hp Hc Hi Hs Hput. cbv zeta.
  split; [| split; reflexivity].
  unfold main. fold configured_port. rewrite Hp. cbv zeta.
  rewrite create_communicator_run, Hc, Hi, Hput.
  apply String.eqb_neq in Hs. rewrite Hs.
  unfold log. simpl. rewrite <- !app_assoc. reflexivity.
Qed.

(** X9.  On every other path (no secret is configured, or the secret is
    stored) the communicator that was created is destroyed exactly once,
    and none is destroyed that was not created. *)
Lemma communicator_released_on_other_paths (stdin : list string) (w : world S Group) :
  (environ_get "MUMBLE_ICE_SECRET" "" = ""%string \/
   put_secret (environ_get "MUMBLE_ICE_SECRET" "") = Ok tt) ->
  exists evs,
    trace (snd (main stdin w)) = trace w ++ evs /\
    (count is_created evs <= 1)%nat /\
    count is_destroyed evs = count is_created evs.
Proof.
  intros Hs.
  unfold main. fold configured_port.
  destruct configured_port as [port | text].
  2:{ exists [Traceback (ValueError text)]. split; [reflexivity |]. split; simpl; auto. }
  cbv zeta. rewrite create_communicator_run.
  destruct createProperties as [[] | e].
  2:{ eexists. split; [unfold log; simpl; rewrite <- ?app_assoc; reflexivity |].
      split; simpl; auto. }
  destruct initialize as [[] | e].
  2:{ eexists. split; [unfold log; simpl; rewrite <- ?app_assoc; reflexivity |].
      split; simpl; auto. }
  assert (Hcreated :
            (if String.eqb (environ_get "MUMBLE_ICE_SECRET" "") ""
             then (Ok tt, log CommunicatorCreated w)
             else (put_secret (environ_get "MUMBLE_ICE_SECRET" ""),
                   log CommunicatorCreated w)) = (Ok tt, log CommunicatorCreated w)).
  { destruct Hs as [Hs | Hs].
    - rewrite Hs. reflexivity.
    - rewrite Hs. destruct (String.eqb _ _); reflexivity. }
  rewrite Hcreated, session_run. cbv zeta.
  destruct (stringToProxy _) as [[] | e].
  2:{ eexists. split; [unfold log; simpl; rewrite <- ?app_assoc; reflexivity |].
      split; simpl; auto. }
  destruct (checkedCast _) as [[|] | e].
  2,3: (eexists; split; [unfold log; simpl; rewrite <- ?app_assoc; reflexivity |];
        split; simpl; auto).
  destruct (getServer 1) as [[|] | e].
  2,3: (eexists; split; [unfold log; simpl; rewrite <- ?app_assoc; reflexivity |];
        split; simpl; auto).
  destruct (command_loop_trace stdin
              (log (Stdout ready_line)
                 (log (ServerResolved 1) (log MetaResolved (log CommunicatorCreated w)))))
    as (w1 & blocks & Hl & Ht & Hf & _).
  rewrite Hl. simpl snd.
  exists ([CommunicatorCreated; MetaResolved; ServerResolved 1; Stdout ready_line]
            ++ concat blocks ++ [CommunicatorDestroyed]).
  split.
  { rewrite log_trace, Ht, !log_trace. rewrite <- !app_assoc. reflexivity. }
  destruct (blocks_keep_communicator _ _ Hf) as [Hc0 Hd0].
  rewrite !count_app, Hc0, Hd0. split; simpl; auto.
Qed.
End Lifecycle.

(** ** More of the dispatcher *)

Section Serving_requests.
Context {rt : PyRuntime} {S Group : Type} {server : ServerPrx S Group}.

Lemma dispatch_registerUser params :
  dispatch (PStr "registerUser") params =
    (username <- lift (py_getitem params "username") ;;
     password <- lift (py_getitem params "password") ;;
     let info := [(UserName, username); (UserPassword, password)] in
     user_id <- invoke (Call_registerUser info) (fun s => registerUser s info) ;;
     ret (PInt user_id)).
Proof. reflexivity. Qed.

(** A method of the operation table is one of its seven names. *)
Lemma is_known_name method :
  is_known method = true -> exists name, method = PStr name /\ In name known_methods.
Proof.
  unfold is_known. intros H. apply existsb_exists in H.
  destruct H as (name & Hin & Hm).
  destruct method; simpl in Hm; try discriminate Hm.
  apply String.eqb_eq in Hm. subst. exists name. split; [reflexivity | exact Hin].
Qed.

Ltac solve_local :=
  first [ eapply py_getitem_local; eassumption
        | eapply py_int_local; eassumption
        | eapply py_get_local; eassumption
        | eapply acls_of_params_local; eassumption
        | eapply info_of_updates_local; eassumption
        | exact I ].

(** Run the branch of [dispatch] that [Hd] holds, one step at a time. *)
Ltac run_branch Hd :=
  repeat (first [rewrite bind_lift in Hd | rewrite bind_invoke in Hd];
          match type of Hd with
          | context [match ?o with _ => _ end] => destruct o eqn:?
          end);
  try match type of Hd with
      | context [match ?o with _ => _ end] => destruct o as [[? ?] ?]
      end;
  unfold ret, raise in Hd; inversion Hd; subst; clear Hd.

Ltac served :=
  unfold serve;
  match goal with
  | |- context [let (_, _) := ?x in _] => destruct x as [? ?] eqn:?
  end;
  simpl in *; subst; simpl.

(** [dispatch] raises an error of its own and leaves the world as it
    was, or invokes the procedure its method names, once, and returns when
    the server returns and raises what the server raises. *)
Lemma dispatch_serves method params (w w' : world S Group) r :
  dispatch method params w = (r, w') ->
  (exists e, r = Raise e /\ is_local e /\ w' = w) \/
  (exists c,
      method = PStr (call_name c) /\
      w' = mkWorld (snd (serve (server_state w) c)) (trace w ++ [RemoteCall c]) /\
      match fst (serve (server_state w) c) with
      | Some e => r = Raise e
      | None => exists v, r = Ok v
      end).
Proof.
  intros Hd.
  destruct (is_known method) eqn:Hk.
  2:{ rewrite (dispatch_unknown method params w Hk) in Hd. inversion Hd; subst.
      left. eexists. split; [reflexivity | split; [exact I | reflexivity]]. }
  apply is_known_name in Hk. destruct Hk as (name & -> & Hin).
  simpl in Hin.
  destruct Hin as [H | [H | [H | [H | [H | [H | [H | []]]]]]]]; subst name;
    [ rewrite dispatch_registerUser in Hd
    | rewrite dispatch_unregisterUser in Hd
    | rewrite dispatch_updateRegistration in Hd
    | rewrite dispatch_getRegisteredUsers in Hd
    | rewrite dispatch_setACL in Hd
    | rewrite dispatch_getACL in Hd
    | rewrite dispatch_getRegistration in Hd ];
    run_branch Hd;
    first [ left; eexists; split; [reflexivity |]; split; [solve_local | reflexivity]
          | right;
            match goal with |- context [RemoteCall ?c] => exists c end;
            split; [reflexivity |]; split; served;
            first [reflexivity | eexists; reflexivity] ].
Qed.

(** X1.  Whatever the method and the parameters, [dispatch] does one of
    two things.  It raises an error of its own and leaves the world as it
    was; or it invokes exactly one remote procedure, the one its method
    names, and then returns a value when the server returns and raises
    the server's exception, unchanged, when the server raises. *)
Theorem dispatch_invokes_only_the_named_procedure (method params : pyval)
    (w w' : world S Group) (r : outcome pyval) :
  dispatch method params w = (r, w') ->
  (exists e, r = Raise e /\ is_local e /\ w' = w) \/
  (exists c,
      method = PStr (call_name c) /\
      In (call_name c) known_methods /\
      w' = mkWorld (snd (serve (server_state w) c)) (trace w ++ [RemoteCall c]) /\
      match fst (serve (server_state w) c) with
      | Some e => r = Raise e
      | None => exists v, r = Ok v
      end).
Proof.
  intros Hd.
  destruct (dispatch_serves method params w w' r Hd) as [Hlocal | (c & Hm & Hw & Hr)].
  - left. exact Hlocal.
  - right. exists c.
    split; [exact Hm |]. split; [| split; [exact Hw | exact Hr]].
    destruct c; simpl; tauto.
Qed.

(** X2.  Parameters that are not a JSON object never reach the server:
    whatever the method, [dispatch] raises an error of its own and makes
    no remote call. *)
Theorem params_that_are_no_object_stay_local (method params : pyval)
    (w w' : world S Group) (r : outcome pyval) :
  is_object params = false ->
  dispatch method params w = (r, w') ->
  w' = w /\ exists e, r = Raise e /\ is_local e.
Proof.
  intros Ho Hd.
  destruct (is_known method) eqn:Hk.
  2:{ rewrite (dispatch_unknown method params w Hk) in Hd. inversion Hd; subst.
      split; [reflexivity |]. eexists. split; [reflexivity | exact I]. }
  apply is_known_name in Hk. destruct Hk as (name & -> & Hin).
  simpl in Hin.
  destruct Hin as [H | [H | [H | [H | [H | [H | [H | []]]]]]]]; subst name;
    [ rewrite dispatch_registerUser in Hd
    | rewrite dispatch_unregisterUser in Hd
    | rewrite dispatch_updateRegistration in Hd
    | rewrite dispatch_getRegisteredUsers in Hd
    | rewrite dispatch_setACL in Hd
    | rewrite dispatch_getACL in Hd
    | rewrite dispatch_getRegistration in Hd ];
    run_branch Hd;
    first [ split; [reflexivity |]; eexists; split; [reflexivity | solve_local]
          | destruct params; discriminate ].
Qed.

(** X3.  A request whose parameters are an object that lacks a member
    the operation reads by subscript ([username] and [password] of
    [registerUser], the [userId] or [channelId] of the five operations
    that take an id) makes no remote call: [dispatch] raises an error of
    its own, which is the [KeyError] of that member, its name between
    quotes, once the parameters read before it are well formed.  The
    members read with [get] ([filter], [acls], [inherit], [updates]) have
    defaults and are not among them. *)
Theorem missing_parameter_is_a_KeyError (method key : string)
    (d : list (pykey * pyval)) (w w' : world S Group) (r : outcome pyval) :
  In (method, key) required_parameters ->
  dict_get key d = None ->
  dispatch (PStr method) (PDict d) w = (r, w') ->
  w' = w /\
  exists e,
    r = Raise e /\ error_message e = exn_str e /\
    (read_before method key (PDict d) -> e = KeyError ("'" ++ key ++ "'")).
Proof.
  intros Hin Hnone Hd.
  assert (Hget : py_getitem (PDict d) key = Raise (KeyError ("'" ++ key ++ "'"))).
  { unfold py_getitem. rewrite Hnone. reflexivity. }
  clear Hnone. simpl in Hin.
  destruct Hin as [H | [H | [H | [H | [H | [H | [H | []]]]]]]];
    inversion H; subst; clear H;
    [ rewrite dispatch_registerUser in Hd
    | rewrite dispatch_registerUser in Hd
    | rewrite dispatch_unregisterUser in Hd
    | rewrite dispatch_updateRegistration in Hd
    | rewrite dispatch_setACL in Hd
    | rewrite dispatch_getACL in Hd
    | rewrite dispatch_getRegistration in Hd ];
    run_branch Hd;
    first [ congruence
          | split; [reflexivity |]; eexists; split; [reflexivity |];
            split; [apply error_message_local; solve_local |];
            intros [Hfirst [Hacl Hinfo]];
            try (destruct (Hfirst eq_refl eq_refl) as [? ?]);
            try (destruct (Hacl eq_refl) as [? ?]);
            try (destruct (Hinfo eq_refl) as [? ?]);
            congruence ].
Qed.
(** The [info] built from an object [updates]. *)
Lemma info_of_updates_object params u :
  py_get params "updates" (PDict []) = Ok (PDict u) ->
  info_of_updates params =
    Ok (match dict_get "username" u, dict_get "password" u with
        | Some n, Some p => [(UserName, n); (UserPassword, p)]
        | Some n, None => [(UserName, n)]
        | None, Some p => [(UserPassword, p)]
        | None, None => []
        end).
Proof.
  intros Hu. unfold info_of_updates. rewrite Hu. simpl.
  destruct (dict_get "username" u), (dict_get "password" u); reflexivity.
Qed.

(** X4.  When [updates] is an object (or is absent), [updateRegistration]
    makes its remote call with an [info] that holds the user name exactly
    when [updates] has a [username], the password exactly when it has a
    [password], each with the value given, and no other field; the call
    is made also when [info] is empty, and the answer is [None] when the
    call returns. *)
Theorem updateRegistration_forwards_present_fields (params : pyval)
    (u : list (pykey * pyval)) (v : pyval) (userId : Z) (w : world S Group) :
  py_get params "updates" (PDict []) = Ok (PDict u) ->
  py_getitem params "userId" = Ok v ->
  py_int v = Ok userId ->
  exists info,
    let answer := updateRegistration (server_state w) userId info in
    dispatch (PStr "updateRegistration") params w =
      (match fst answer with
       | Ok _ => Ok PNone
       | Raise e => Raise e
       end,
       mkWorld (snd answer)
               (trace w ++ [RemoteCall (Call_updateRegistration userId info)])) /\
    assoc_get Z.eqb UserName info = dict_get "username" u /\
    assoc_get Z.eqb UserPassword info = dict_get "password" u /\
    (forall k, k <> UserName -> k <> UserPassword -> assoc_get Z.eqb k info = None).
Proof.
  intros Hu Hv Hn.
  exists (match dict_get "username" u, dict_get "password" u with
          | Some n, Some p => [(UserName, n); (UserPassword, p)]
          | Some n, None => [(UserName, n)]
          | None, Some p => [(UserPassword, p)]
          | None, None => []
          end).
  cbv zeta. split.
  - rewrite dispatch_updateRegistration, bind_lift, (info_of_updates_object _ _ Hu).
    rewrite bind_lift, Hv, bind_lift, Hn, bind_invoke.
    destruct (fst (updateRegistration _ _ _)); reflexivity.
  - destruct (dict_get "username" u), (dict_get "password" u);
      (split; [reflexivity | split; [reflexivity |]]);
      intros k Hk1 Hk2; simpl;
      repeat match goal with
             | |- context [Z.eqb k ?n] => destruct (Z.eqb_spec k n); [contradiction |]
             end;
      reflexivity.
Qed.

(** X5.  An [updates] that is not an object never adds a field: when the
    [info] of [updateRegistration] is built at all, it is empty (a list
    or a string that holds neither name), and otherwise the request
    fails before any remote call. *)
Theorem updates_that_are_no_object_add_nothing (params updates : pyval)
    (info : list (UserInfo * pyval)) :
  py_get params "updates" (PDict []) = Ok updates ->
  is_object updates = false ->
  info_of_updates params = Ok info ->
  info = [].
Proof.
  intros Hu Ho. unfold info_of_updates. rewrite Hu. simpl.
  destruct updates; try discriminate Ho; simpl; try discriminate.
  - (* a string *)
    destruct (is_substring "username" s); simpl; [discriminate |].
    destruct (is_substring "password" s); simpl; [discriminate |].
    intros H. inversion H. reflexivity.
  - (* a list *)
    destruct (existsb _ l); simpl; [discriminate |].
    destruct (existsb _ l); simpl; [discriminate |].
    intros H. inversion H. reflexivity.
Qed.
End Serving_requests.

(** ** More of the protocol loop *)

Section Loop_properties.
Context {rt : PyRuntime} {S Group : Type} {server : ServerPrx S Group}.

Lemma calls_of_app (a b : list (event Group)) :
  calls_of (a ++ b) = calls_of a ++ calls_of b.
Proof.
  induction a as [| ev a IH]; [reflexivity |].
  destruct ev; simpl; rewrite IH; reflexivity.
Qed.

Lemma stderr_of_app (a b : list (event Group)) :
  stderr_of (a ++ b) = stderr_of a ++ stderr_of b.
Proof.
  induction a as [| ev a IH]; [reflexivity |].
  destruct ev; simpl; rewrite IH; reflexivity.
Qed.

Lemma replay_app (s : S) (a b : list (remote_call Group)) :
  replay s (a ++ b) = replay (replay s a) b.
Proof. unfold replay. apply fold_left_app. Qed.

Lemma process_line_ok line (w : world S Group) :
  process_line line w = (Ok tt, snd (process_line line w)).
Proof.
  destruct (process_line_block line w) as (w' & evs & Hp & _). rewrite Hp. reflexivity.
Qed.

Lemma command_loop_ok stdin (w : world S Group) :
  command_loop stdin w = (Ok tt, snd (command_loop stdin w)).
Proof.
  destruct (command_loop_blocks stdin w) as (w' & blocks & Hl & _). rewrite Hl.
  reflexivity.
Qed.

Lemma command_loop_step line rest (w : world S Group) :
  command_loop (line :: rest) w =
    command_loop rest (snd (process_line line (log (ReadLine line) w))).
Proof. apply command_loop_cons. apply process_line_ok. Qed.

(** X6.  The loop consumes its input incrementally: to run it on the
    lines [first] followed by the lines [later] is to run it on [first]
    and then on [later] from the world that run left.  What is answered to
    the first lines, and what they do to the server, does not depend on
    the lines that follow. *)
Theorem command_loop_is_incremental (first later : list string) (w : world S Group) :
  command_loop (first ++ later) w = command_loop later (snd (command_loop first w)).
Proof.
  revert w. induction first as [| line rest IH]; intros w.
  - reflexivity.
  - simpl app. rewrite !command_loop_step. apply IH.
Qed.

(** A request makes no remote call and leaves the world as it was, or
    makes one call that the server serves. *)
Lemma handle_request_serves line (w w' : world S Group) r req_id :
  handle_request line w = (r, req_id, w') ->
  w' = w \/
  exists c, w' = mkWorld (snd (serve (server_state w) c)) (trace w ++ [RemoteCall c]).
Proof.
  unfold handle_request.
  destruct (json_loads line) as [req | [cls text]].
  - destruct (py_get req "id" (PStr "")) as [req_id' | e].
    + destruct (bind _ _ w) as [r0 w0] eqn:Hb.
      intros H; inversion H; subst.
      rewrite bind_lift in Hb.
      destruct (py_get req "method" (PStr "")) as [method | e];
        [| inversion Hb; left; reflexivity].
      rewrite bind_lift in Hb.
      destruct (py_get req "params" (PDict [])) as [params | e];
        [| inversion Hb; left; reflexivity].
      destruct (dispatch_serves method params w w' r Hb)
        as [(e & _ & _ & Hw) | (c & _ & Hw & _)].
      * left. exact Hw.
      * right. exists c. exact Hw.
    + intros H; inversion H. left. reflexivity.
  - intros H; inversion H. left. reflexivity.
Qed.

(** One line: what the body appends holds no write to standard error,
    and the server is in the state the appended calls replay to. *)
Lemma process_line_replays line (w : world S Group) :
  exists evs,
    trace (snd (process_line line w)) = trace w ++ evs /\
    server_state (snd (process_line line w)) = replay (server_state w) (calls_of evs) /\
    stderr_of evs = [].
Proof.
  destruct (blank line) eqn:Hb.
  - rewrite (process_line_blank line w Hb). exists []. rewrite app_nil_r.
    repeat split.
  - destruct (process_line_request line w Hb) as (r & req_id & w1 & Hh & Hp).
    rewrite Hp. simpl snd.
    destruct (handle_request_serves _ _ _ _ _ Hh) as [-> | (c & ->)].
    + eexists [_]. repeat split.
    + eexists [_; _]. simpl. rewrite <- app_assoc. repeat split.
Qed.

Lemma command_loop_replays stdin : forall w : world S Group,
  exists evs,
    trace (snd (command_loop stdin w)) = trace w ++ evs /\
    server_state (snd (command_loop stdin w)) = replay (server_state w) (calls_of evs) /\
    stderr_of evs = [].
Proof.
  induction stdin as [| line rest IH]; intros w.
  - exists []. simpl. rewrite app_nil_r. repeat split.
  - rewrite command_loop_step.
    destruct (process_line_replays line (log (ReadLine line) w)) as (e1 & Ht1 & Hs1 & He1).
    destruct (IH (snd (process_line line (log (ReadLine line) w))))
      as (e2 & Ht2 & Hs2 & He2).
    exists (ReadLine line :: e1 ++ e2).
    split; [| split].
    + rewrite Ht2, Ht1, log_trace. rewrite <- !app_assoc. reflexivity.
    + rewrite Hs2, Hs1. simpl calls_of. rewrite calls_of_app, replay_app. reflexivity.
    + simpl. rewrite stderr_of_app, He1, He2. reflexivity.
Qed.

(** X7.  The loop touches the server only through the remote calls it
    records: after any input, the server is in the state that results
    from serving the calls of the trace, in order, from the state it was
    in.  In particular requests that make no remote call leave the
    server as it was. *)
Theorem command_loop_changes_the_server_only_by_its_calls (stdin : list string)
    (w : world S Group) :
  exists evs,
    trace (snd (command_loop stdin w)) = trace w ++ evs /\
    server_state (snd (command_loop stdin w)) = replay (server_state w) (calls_of evs) /\
    (calls_of evs = [] ->
     server_state (snd (command_loop stdin w)) = server_state w).
Proof.
  destruct (command_loop_replays stdin w) as (evs & Ht & Hs & _).
  exists evs. split; [exact Ht |]. split; [exact Hs |].
  intros Hnone. rewrite Hs, Hnone. reflexivity.
Qed.
(** *** Blank lines *)

Lemma restart_log ev (w : world S Group) : restart (log ev w) = restart w.
Proof. reflexivity. Qed.

Lemma resume_log ev (w w0 : world S Group) : log ev (resume w w0) = resume w (log ev w0).
Proof. unfold log, resume. simpl. rewrite app_assoc. reflexivity. Qed.

Lemma resume_restart (w : world S Group) : resume w (restart w) = w.
Proof. unfold resume, restart. simpl. rewrite app_nil_r. destruct w; reflexivity. Qed.

Lemma restart_resume (w w0 : world S Group) : restart (resume w w0) = restart w0.
Proof. reflexivity. Qed.

Lemma resume_assoc (w w1 w2 : world S Group) :
  resume (resume w w1) w2 = resume w (resume w1 w2).
Proof. unfold resume. simpl. rewrite app_assoc. reflexivity. Qed.

(** [dispatch] reads the server and not the trace: a run from any world
    is the run from the same server with nothing recorded, appended to
    what was recorded. *)
Lemma dispatch_frame method params (w : world S Group) :
  dispatch method params w =
    (fst (dispatch method params (restart w)),
     resume w (snd (dispatch method params (restart w)))).
Proof.
  destruct (is_known method) eqn:Hk.
  2:{ rewrite !(dispatch_unknown method params _ Hk). simpl.
      rewrite resume_restart. reflexivity. }
  apply is_known_name in Hk. destruct Hk as (name & -> & Hin).
  simpl in Hin.
  destruct Hin as [H | [H | [H | [H | [H | [H | [H | []]]]]]]]; subst name;
    [ rewrite dispatch_registerUser
    | rewrite dispatch_unregisterUser
    | rewrite dispatch_updateRegistration
    | rewrite dispatch_getRegisteredUsers
    | rewrite dispatch_setACL
    | rewrite dispatch_getACL
    | rewrite dispatch_getRegistration ];
    repeat (rewrite ?bind_lift, ?bind_invoke; cbn [restart server_state trace];
            match goal with
            | |- context [match ?o with _ => _ end] => destruct o
            end);
    try match goal with
        | |- context [match ?o with _ => _ end] => destruct o as [[? ?] ?]
        end;
    unfold ret, resume; simpl; rewrite ?app_nil_r; try reflexivity;
    destruct w; reflexivity.
Qed.
Lemma handle_request_frame line (w : world S Group) :
  handle_request line w =
    (fst (handle_request line (restart w)),
     resume w (snd (handle_request line (restart w)))).
Proof.
  unfold handle_request.
  destruct (json_loads line) as [req | [cls text]];
    [| simpl; rewrite resume_restart; reflexivity].
  destruct (py_get req "id" (PStr "")) as [req_id | e];
    [| simpl; rewrite resume_restart; reflexivity].
  rewrite !bind_lift.
  destruct (py_get req "method" (PStr "")) as [method | e];
    [| simpl; rewrite resume_restart; reflexivity].
  rewrite !bind_lift.
  destruct (py_get req "params" (PDict [])) as [params | e];
    [| simpl; rewrite resume_restart; reflexivity].
  rewrite (dispatch_frame method params w).
  destruct (dispatch method params (restart w)) as [r w0]. reflexivity.
Qed.

Lemma process_line_frame line (w : world S Group) :
  snd (process_line line w) = resume w (snd (process_line line (restart w))).
Proof.
  unfold process_line.
  destruct (String.eqb (strip line) "");
    [simpl; rewrite resume_restart; reflexivity |].
  rewrite (handle_request_frame (strip line) w).
  destruct (handle_request (strip line) (restart w)) as [[r req_id] w0].
  simpl fst; simpl snd.
  destruct r; unfold emit, resume; simpl; rewrite app_assoc; reflexivity.
Qed.

Lemma command_loop_frame stdin : forall w : world S Group,
  snd (command_loop stdin w) = resume w (snd (command_loop stdin (restart w))).
Proof.
  induction stdin as [| line rest IH]; intros w.
  - simpl. rewrite resume_restart. reflexivity.
  - rewrite !command_loop_step.
    rewrite IH.
    rewrite (IH (snd (process_line line (log (ReadLine line) (restart w))))).
    rewrite (process_line_frame line (log (ReadLine line) w)).
    rewrite (process_line_frame line (log (ReadLine line) (restart w))).
    rewrite !restart_log, !restart_resume.
    rewrite <- resume_assoc. f_equal.
    unfold resume, log, restart. simpl. rewrite <- !app_assoc. reflexivity.
Qed.

(** What a run from a server with an empty trace answers, calls and
    leaves is the same with and without the blank lines of the input. *)
Lemma blank_lines_from_start stdin : forall s : S,
  let w1 := snd (command_loop stdin (mkWorld s [])) in
  let w2 := snd (command_loop (filter (fun line => negb (blank line)) stdin)
                   (mkWorld s [])) in
  server_state w1 = server_state w2 /\
  stdout_of (trace w1) = stdout_of (trace w2) /\
  calls_of (trace w1) = calls_of (trace w2).
Proof.
  induction stdin as [| line rest IH]; intros s; cbv zeta.
  - repeat split.
  - simpl filter. destruct (blank line) eqn:Hb; simpl negb; cbv iota.
    + rewrite command_loop_step, process_line_blank by exact Hb.
      simpl snd. rewrite command_loop_frame.
      change (restart (log (ReadLine line) (mkWorld s []))) with (mkWorld s ([] : list (event Group))).
      destruct (IH s) as (Hs & Ho & Hc). cbv zeta in Hs, Ho, Hc.
      unfold resume. simpl.
      repeat split; assumption.
    + rewrite !command_loop_step.
      set (w0 := snd (process_line line (log (ReadLine line) (mkWorld s [])))).
      rewrite (command_loop_frame rest w0).
      rewrite (command_loop_frame (filter _ rest) w0).
      destruct (IH (server_state w0)) as (Hs & Ho & Hc). cbv zeta in Hs, Ho, Hc.
      unfold resume, restart. simpl.
      rewrite !stdout_of_app, !calls_of_app, Ho, Hc.
      repeat split. exact Hs.
Qed.

(** X8.  Blank lines are ignored altogether: with the blank lines of the
    input removed, the loop writes the same responses, makes the same
    remote calls and leaves the server in the same state. *)
Theorem blank_lines_change_nothing (stdin : list string) (w : world S Group) :
  let w1 := snd (command_loop stdin w) in
  let w2 := snd (command_loop (filter (fun line => negb (blank line)) stdin) w) in
  server_state w1 = server_state w2 /\
  stdout_of (trace w1) = stdout_of (trace w2) /\
  calls_of (trace w1) = calls_of (trace w2).
Proof.
  cbv zeta.
  rewrite (command_loop_frame stdin w), (command_loop_frame (filter _ stdin) w).
  destruct (blank_lines_from_start stdin (server_state w)) as (Hs & Ho & Hc).
  cbv zeta in Hs, Ho, Hc.
  unfold resume, restart. simpl.
  rewrite !stdout_of_app, !calls_of_app, Ho, Hc.
  repeat split. exact Hs.
Qed.
End Loop_properties.

(** ** More of the process *)

Section Process_properties.
Context {rt : PyRuntime} {ice : IceRuntime} {S Group : Type}
        {server : ServerPrx S Group}.

Ltac startup_failed :=
  left; unfold log; simpl; eexists;
  split; [rewrite <- ?app_assoc; reflexivity |];
  repeat split; discriminate.

(** The two shapes of a run: start-up fails, and the process exits with
    status 1 after writing to standard error only; or the session is
    established, and the process runs the command loop, destroys the
    communicator and exits with status 0. *)
Lemma main_shape (stdin : list string) (w : world S Group) :
  (exists evs,
      main stdin w = (1, mkWorld (server_state w) (trace w ++ evs)) /\
      calls_of evs = [] /\ stdout_of evs = [] /\ stderr_of evs <> []) \/
  main stdin w =
    (0, log CommunicatorDestroyed
          (snd (command_loop stdin
                  (log (Stdout ready_line)
                     (log (ServerResolved 1)
                        (log MetaResolved (log CommunicatorCreated w))))))).
Proof.
  unfold main.
  destruct (int_of_text (environ_get "MUMBLE_ICE_PORT" "6502")) as [port | text];
    [| startup_failed].
  cbv zeta. rewrite create_communicator_run.
  destruct createProperties as [[] | e]; [| startup_failed].
  destruct initialize as [[] | e]; [| startup_failed].
  assert (Hcreated :
            (exists e,
                (if String.eqb (environ_get "MUMBLE_ICE_SECRET" "") ""
                 then (Ok tt, log CommunicatorCreated w)
                 else (put_secret (environ_get "MUMBLE_ICE_SECRET" ""),
                       log CommunicatorCreated w)) = (Raise e, log CommunicatorCreated w)) \/
            (if String.eqb (environ_get "MUMBLE_ICE_SECRET" "") ""
             then (Ok tt, log CommunicatorCreated w)
             else (put_secret (environ_get "MUMBLE_ICE_SECRET" ""),
                   log CommunicatorCreated w)) = (Ok tt, log CommunicatorCreated w)).
  { destruct (String.eqb _ _); [right; reflexivity |].
    destruct (put_secret _) as [[] | e]; [right; reflexivity | left; exists e; reflexivity]. }
  destruct Hcreated as [(e & ->) | ->]; [startup_failed |].
  rewrite session_run. cbv zeta.
  destruct (stringToProxy _) as [[] | e]; [| startup_failed].
  destruct (checkedCast _) as [[|] | e]; [| startup_failed | startup_failed].
  destruct (getServer 1) as [[|] | e]; [| startup_failed | startup_failed].
  right. rewrite command_loop_ok. reflexivity.
Qed.

(** X10.  The exit status tells whether anything was written to standard
    error: a run that exits with status 0 wrote nothing there, a run that
    exits with status 1 wrote a diagnostic there, and there is no other
    exit status.  Errors of single requests are reported on standard
    output only. *)
Theorem exit_status_tells_stderr (stdin : list string) (w : world S Group) :
  exists evs,
    trace (snd (main stdin w)) = trace w ++ evs /\
    ((fst (main stdin w) = 0 /\ stderr_of evs = []) \/
     (fst (main stdin w) = 1 /\ stderr_of evs <> [])).
Proof.
  destruct (main_shape stdin w) as [(evs & -> & _ & _ & Herr) | ->].
  - exists evs. split; [reflexivity |]. right. split; [reflexivity | exact Herr].
  - destruct (command_loop_replays stdin
                (log (Stdout ready_line)
                   (log (ServerResolved 1) (log MetaResolved (log CommunicatorCreated w)))))
      as (evs & Ht & _ & Herr).
    exists ([CommunicatorCreated; MetaResolved; ServerResolved 1; Stdout ready_line]
              ++ evs ++ [CommunicatorDestroyed]).
    simpl fst; simpl snd. split.
    + rewrite log_trace, Ht, !log_trace. rewrite <- !app_assoc. reflexivity.
    + left. split; [reflexivity |].
      rewrite !stderr_of_app, Herr. reflexivity.
Qed.

(** X11.  The process touches the server only through the remote calls
    of the command loop: the server ends in the state that results from
    serving the calls of the trace in order, and every remote call comes
    after the ready line was written, so that a run whose start-up fails
    makes no call. *)
Theorem main_changes_the_server_only_by_its_calls (stdin : list string)
    (w : world S Group) :
  exists evs,
    trace (snd (main stdin w)) = trace w ++ evs /\
    server_state (snd (main stdin w)) = replay (server_state w) (calls_of evs) /\
    (forall before c after,
        evs = before ++ RemoteCall c :: after -> In (Stdout ready_line) before).
Proof.
  destruct (main_shape stdin w) as [(evs & -> & Hcalls & _) | ->].
  - exists evs. simpl snd. split; [reflexivity |]. rewrite Hcalls.
    split; [reflexivity |]. intros before c after He.
    rewrite He, calls_of_app in Hcalls. simpl in Hcalls.
    destruct (calls_of before); discriminate Hcalls.
  - destruct (command_loop_replays stdin
                (log (Stdout ready_line)
                   (log (ServerResolved 1) (log MetaResolved (log CommunicatorCreated w)))))
      as (evs & Ht & Hs & _).
    exists ([CommunicatorCreated; MetaResolved; ServerResolved 1; Stdout ready_line]
              ++ evs ++ [CommunicatorDestroyed]).
    simpl fst; simpl snd. split; [| split].
    + rewrite log_trace, Ht, !log_trace. rewrite <- !app_assoc. reflexivity.
    + simpl server_state. rewrite Hs. simpl.
      rewrite calls_of_app. simpl. rewrite app_nil_r. reflexivity.
    + intros before c after He.
      destruct before as [| b1 [| b2 [| b3 [| b4 before]]]];
        simpl in He; inversion He; subst.
      simpl. tauto.
Qed.
End Process_properties.

(** ** The transcription wrapper *)

Module Transcription.
Import Transcribe.

Section Facts.
Context {rt : PyRuntime} {env : Environment}.

(** *** Track names *)

Lemma split_dash_prefixed before after :
  dash_free before = true ->
  split_dash (before ++ String "-" after)%string = Some (before, after).
Proof.
  induction before as [| c rest IH]; simpl; intros H.
  - reflexivity.
  - apply andb_true_iff in H. destruct H as [Hc Hrest].
    apply negb_true_iff in Hc. rewrite Hc, (IH Hrest). reflexivity.
Qed.

Lemma split_dash_free s : dash_free s = true -> split_dash s = None.
Proof.
  induction s as [| c rest IH]; simpl; intros H; [reflexivity |].
  apply andb_true_iff in H. destruct H as [Hc Hrest].
  apply negb_true_iff in Hc. rewrite Hc, (IH Hrest). reflexivity.
Qed.

(** X12.  The name of a track is the stem of its file without a numeric
    prefix: when what stands before the first dash of the stem is all
    digits, the name is what follows that dash, later dashes included;
    otherwise, and when the stem has no dash, the name is the whole
    stem. *)
Theorem track_name_drops_a_numeric_prefix (before after : string) :
  dash_free before = true ->
  track_name (before ++ String "-" after)%string =
    (if isdigit before then after else (before ++ String "-" after)%string) /\
  track_name before = before.
Proof.
  intros H. unfold track_name.
  rewrite (split_dash_prefixed before after H), (split_dash_free before H).
  split; reflexivity.
Qed.
(** *** The run *)

Lemma stdout_of_events_app (a b : list event) : stdout_of (a ++ b) = stdout_of a ++ stdout_of b.
Proof.
  induction a as [| ev a IH]; [reflexivity |]. destruct ev; simpl; rewrite IH; reflexivity.
Qed.

Lemma stderr_of_events_app (a b : list event) : stderr_of (a ++ b) = stderr_of a ++ stderr_of b.
Proof.
  induction a as [| ev a IH]; [reflexivity |]. destruct ev; simpl; rewrite IH; reflexivity.
Qed.

Lemma transcribed_app (a b : list event) :
  transcribed (a ++ b) = transcribed a ++ transcribed b.
Proof.
  induction a as [| ev a IH]; [reflexivity |]. destruct ev; simpl; rewrite IH; reflexivity.
Qed.

Lemma loaded_app (a b : list event) : loaded (a ++ b) = loaded a ++ loaded b.
Proof.
  induction a as [| ev a IH]; [reflexivity |]. destruct ev; simpl; rewrite IH; reflexivity.
Qed.

(** [transcribe_file], step by step. *)
Lemma transcribe_file_run model audio_path language initial_prompt tr :
  transcribe_file model audio_path language initial_prompt tr =
    (match model_transcribe model audio_path (keyword_arguments language initial_prompt) with
     | Ok (segments, info) => Ok (document segments info)
     | Raise e => Raise e
     end,
     tr ++ [Transcribe audio_path (keyword_arguments language initial_prompt)]).
Proof.
  unfold transcribe_file, bind, emit, lift, ret. cbv zeta.
  destruct (model_transcribe _ _ _) as [[segments info] | e]; reflexivity.
Qed.

(** One turn of the loop over the files. *)
Lemma transcribe_all_cons args f rest acc tr :
  transcribe_all args (f :: rest) acc tr =
    let kwargs := keyword_arguments (language_arg args) (initial_prompt args) in
    let tr' :=
      tr ++ [Stderr ("Transcribing " ++ track_name (stem f) ++ " (" ++ name f ++ ")...");
             Transcribe (path_str f) kwargs] in
    match model_transcribe (model args) (path_str f) kwargs with
    | Ok (segments, info) =>
        transcribe_all args rest
          (dict_set (KStr (track_name (stem f))) (document segments info) acc) tr'
    | Raise e => (Raise e, tr')
    end.
Proof.
  simpl transcribe_all. unfold bind at 1. unfold emit at 1.
  unfold bind at 1. rewrite transcribe_file_run. cbv zeta.
  rewrite <- app_assoc. simpl app.
  destruct (model_transcribe _ _ _) as [[segments info] | e]; reflexivity.
Qed.

(** The loop over the files: it gives every file to the model, in order,
    up to the first that fails; it loads no model and writes nothing to
    standard output; and when no file fails, the tracks are those of the
    files. *)
Lemma transcribe_all_run args files : forall acc tr,
  exists evs n,
    snd (transcribe_all args files acc tr) = tr ++ evs /\
    stdout_of evs = [] /\
    loaded evs = [] /\
    transcribed evs = firstn n (map path_str files) /\
    match fst (transcribe_all args files acc tr) with
    | Ok tracks =>
        n = length files /\
        Forall (fun f => document_of args f <> None) files /\
        tracks = tracks_of args files acc
    | Raise _ => True
    end.
Proof.
  induction files as [| f rest IH]; intros acc tr.
  - exists [], 0%nat. simpl. rewrite app_nil_r. repeat split. constructor.
  - rewrite transcribe_all_cons. cbv zeta.
    unfold tracks_of, document_of. simpl fold_left.
    destruct (model_transcribe _ _ _) as [[segments info] | e] eqn:Hm.
    + match goal with
      | |- context [transcribe_all args rest ?a ?t] =>
          destruct (IH a t) as (evs & n & Ht & Ho & Hl & Hc & Hr)
      end.
      eexists (_ :: _ :: evs), (Datatypes.S n).
      split; [rewrite Ht; rewrite <- !app_assoc; reflexivity |].
      split; [exact Ho |]. split; [exact Hl |].
      split; [simpl; rewrite Hc; reflexivity |].
      destruct (fst (transcribe_all args rest _ _)); [| exact I].
      destruct Hr as (Hn & Hall & Htracks).
      split; [simpl; rewrite Hn; reflexivity |].
      split; [| exact Htracks].
      constructor; [| exact Hall].
      unfold document_of. rewrite Hm. discriminate.
    + eexists [_; _], 1%nat. simpl.
      repeat split.
Qed.
(** [run], step by step. *)
Lemma run_unfold args :
  run args [] =
    match audio_files_of (audio_dir args) with
    | Raise e => (Raise e, [])
    | Ok [] =>
        (Ok 0, [Stderr ("No .ogg or .flac files found in " ++ audio_dir args);
                Stdout (PDict [(KStr "tracks", PDict [])])])
    | Ok (f :: rest) =>
        let tr := [Stderr ("Loading model '" ++ model args ++ "'..."); LoadModel (model args)] in
        match WhisperModel (model args) with
        | Raise e => (Raise e, tr)
        | Ok _ =>
            match transcribe_all args (f :: rest) [] tr with
            | (Ok tracks, tr') =>
                (Ok 0, tr' ++ [Stdout (PDict [(KStr "tracks", PDict tracks)])])
            | (Raise e, tr') => (Raise e, tr')
            end
        end
    end.
Proof.
  unfold run, bind, lift, emit, ret.
  destruct (audio_files_of (audio_dir args)) as [[| f rest] | e]; reflexivity.
Qed.

(** X13.  The process writes to standard output one JSON document, as
    the last thing it does, or nothing at all: it exits with status 0
    after writing the document of the tracks, and with status 1, after a
    diagnostic on standard error, without having written anything to
    standard output.  When the directory cannot be read, the model
    cannot be loaded or any file fails, no document is written, whatever
    was transcribed before. *)
Theorem main_writes_one_document_or_none (args : Args) :
  (fst (main args) = 0 /\
   exists before tracks,
     snd (main args) = before ++ [Stdout (PDict [(KStr "tracks", PDict tracks)])] /\
     stdout_of before = []) \/
  (fst (main args) = 1 /\
   stdout_of (snd (main args)) = [] /\
   stderr_of (snd (main args)) <> []).
Proof.
  unfold main.
  destruct (is_dir (audio_dir args));
    [| right; repeat split; discriminate].
  rewrite run_unfold.
  destruct (audio_files_of (audio_dir args)) as [[| f rest] | e].
  - left. split; [reflexivity |]. eexists [_], []. split; reflexivity.
  - cbv zeta. destruct (WhisperModel (model args)) as [u | e].
    + match goal with
      | |- context [transcribe_all args ?fs ?a ?t] =>
          destruct (transcribe_all_run args fs a t) as (evs & n & Ht & Ho & _);
          destruct (transcribe_all args fs a t) as [[tracks | e] tr']
      end; simpl in Ht; subst tr'.
      * left. split; [reflexivity |]. eexists _, tracks. split; [reflexivity |].
        simpl. exact Ho.
      * right. simpl fst; simpl snd. split; [reflexivity |].
        cbn [stdout_of stderr_of]. rewrite stdout_of_events_app, Ho.
        split; [reflexivity | discriminate].
    + right. repeat split. discriminate.
  - right. repeat split. discriminate.
Qed.
(** *** The files *)

Lemma insert_path_permutation f l : Permutation (insert_path f l) (f :: l).
Proof.
  induction l as [| g rest IH]; simpl; [apply Permutation_refl |].
  destruct (path_lt f g); [apply Permutation_refl |].
  apply perm_trans with (g :: f :: rest); [apply perm_skip; exact IH | apply perm_swap].
Qed.

(** Sorting loses no path and adds none. *)
Lemma sorted_permutation paths : Permutation (sorted paths) paths.
Proof.
  unfold sorted.
  assert (H : forall acc, Permutation (fold_left (fun acc f => insert_path f acc) paths acc)
                                      (acc ++ paths)).
  { induction paths as [| f rest IH]; intros acc; simpl.
    - rewrite app_nil_r. apply Permutation_refl.
    - apply perm_trans with (insert_path f acc ++ rest); [apply IH |].
      apply perm_trans with ((f :: acc) ++ rest).
      + apply Permutation_app_tail. apply insert_path_permutation.
      + simpl. apply Permutation_middle. }
  exact (H []).
Qed.

(** X14.  When the directory can be listed, the files the process works
    on are all the [.ogg] files and then all the [.flac] files, none lost
    and none twice.  The model is loaded once, and not at all when there
    is no file.  The files are given to the model one
    by one in that order, up to the first that fails; a run that exits
    with status 0 has given every file to the model exactly once. *)
Theorem every_file_is_transcribed_once_in_order (args : Args) (oggs flacs : list Path) :
  is_dir (audio_dir args) = true ->
  glob (audio_dir args) "*.ogg" = Ok oggs ->
  glob (audio_dir args) "*.flac" = Ok flacs ->
  let files := sorted oggs ++ sorted flacs in
  Permutation (sorted oggs) oggs /\
  Permutation (sorted flacs) flacs /\
  loaded (snd (main args)) = match files with
                             | [] => []
                             | _ :: _ => [model args]
                             end /\
  exists n,
    transcribed (snd (main args)) = firstn n (map path_str files) /\
    (fst (main args) = 0 -> n = length files).
Proof.
  intros Hdir Hogg Hflac files.
  split; [apply sorted_permutation |]. split; [apply sorted_permutation |].
  assert (Hfiles : audio_files_of (audio_dir args) = Ok files).
  { unfold audio_files_of. rewrite Hogg, Hflac. reflexivity. }
  unfold main. rewrite Hdir, run_unfold, Hfiles.
  destruct files as [| f rest].
  - split; [reflexivity |]. exists 0%nat. split; reflexivity.
  - cbv zeta. destruct (WhisperModel (model args)) as [u | e].
    + match goal with
      | |- context [transcribe_all args ?fs ?a ?t] =>
          destruct (transcribe_all_run args fs a t) as (evs & n & Ht & _ & Hl & Hc & Hr);
          destruct (transcribe_all args fs a t) as [[tracks | e] tr']
      end; simpl in Ht; subst tr'; simpl fst; simpl snd;
        cbn [loaded transcribed]; rewrite ?loaded_app, ?transcribed_app, Hl, Hc;
        (split; [reflexivity |]); exists n; simpl; rewrite app_nil_r;
        (split; [reflexivity |]).
      * intros _. simpl in Hr. destruct Hr as (Hn & _). exact Hn.
      * discriminate.
    + split; [reflexivity |]. exists 0%nat. split; [reflexivity | discriminate].
Qed.

(** *** The tracks *)

Lemma pykey_eqb_eq a b : pykey_eqb a b = true <-> a = b.
Proof.
  destruct a, b; simpl; split; intros H; try discriminate; try congruence.
  - apply String.eqb_eq in H. subst. reflexivity.
  - inversion H. apply String.eqb_refl.
  - apply Z.eqb_eq in H. subst. reflexivity.
  - inversion H. apply Z.eqb_refl.
Qed.

(** Lookup after store: the value stored under the name itself, and what
    was there under any other name. *)
Lemma dict_get_set nm k v d :
  dict_get nm (dict_set (KStr k) v d) =
    if String.eqb k nm then Some v else dict_get nm d.
Proof.
  unfold dict_get, dict_set.
  induction d as [| [k' v'] rest IH]; cbn [assoc_get assoc_set].
  - change (pykey_eqb (KStr nm) (KStr k)) with (String.eqb nm k).
    rewrite String.eqb_sym. reflexivity.
  - destruct (pykey_eqb (KStr k) k') eqn:Hk; cbn [assoc_get].
    + apply pykey_eqb_eq in Hk. subst k'.
      change (pykey_eqb (KStr nm) (KStr k)) with (String.eqb nm k).
      rewrite (String.eqb_sym nm k). destruct (String.eqb k nm); reflexivity.
    + destruct (pykey_eqb (KStr nm) k') eqn:Hn.
      * apply pykey_eqb_eq in Hn. subst k'.
        change (String.eqb k nm = false) in Hk. rewrite Hk. reflexivity.
      * exact IH.
Qed.

(** A store keeps the keys distinct and adds at most one entry. *)
Lemma dict_set_keys k v d :
  NoDup (map fst d) ->
  NoDup (map fst (dict_set k v d)) /\ (length (dict_set k v d) <= Datatypes.S (length d))%nat /\
  (forall k', In k' (map fst (dict_set k v d)) -> k' = k \/ In k' (map fst d)).
Proof.
  unfold dict_set.
  induction d as [| [k0 v0] rest IH]; simpl; intros Hnd.
  - split; [constructor; [tauto | constructor] |]. split; [lia |].
    intros k' [-> | []]. left. reflexivity.
  - inversion Hnd as [| ? ? Hnotin Hrest]; subst.
    destruct (pykey_eqb k k0) eqn:Hk.
    + apply pykey_eqb_eq in Hk. subst k0. simpl.
      split; [constructor; assumption |]. split; [lia |]. tauto.
    + destruct (IH Hrest) as (Hnd' & Hlen & Hin). simpl.
      split; [| split; [lia |]].
      * constructor; [| exact Hnd'].
        intros H. apply Hin in H. destruct H as [-> | H]; [| exact (Hnotin H)].
        assert (Hrefl : pykey_eqb k k = true) by (apply pykey_eqb_eq; reflexivity).
        rewrite Hrefl in Hk. discriminate Hk.
      * intros k' [-> | H]; [right; left; reflexivity |].
        apply Hin in H. tauto.
Qed.

Lemma find_app {A} (p : A -> bool) (a b : list A) :
  find p (a ++ b) = match find p a with
                    | Some x => Some x
                    | None => find p b
                    end.
Proof.
  induction a as [| x a IH]; simpl; [reflexivity |].
  destruct (p x); [reflexivity | exact IH].
Qed.

(** What is stored under a name after the files: the document of the last
    file of that name, and what was there when no file has it. *)
Lemma tracks_of_get args nm files : forall acc,
  Forall (fun f => document_of args f <> None) files ->
  dict_get nm (tracks_of args files acc) =
    match last_named nm files with
    | Some f => document_of args f
    | None => dict_get nm acc
    end.
Proof.
  unfold tracks_of, last_named.
  induction files as [| f rest IH]; intros acc Hall; simpl.
  - reflexivity.
  - inversion Hall as [| ? ? Hf Hrest]; subst.
    destruct (document_of args f) as [doc |] eqn:Hdoc; [| contradiction].
    rewrite (IH _ Hrest), find_app.
    destruct (find _ (rev rest)); [reflexivity |].
    simpl. rewrite dict_get_set.
    destruct (String.eqb (track_name (stem f)) nm); [symmetry; exact Hdoc | reflexivity].
Qed.

Lemma tracks_of_keys args files : forall acc,
  NoDup (map fst acc) ->
  NoDup (map fst (tracks_of args files acc)) /\
  (length (tracks_of args files acc) <= length acc + length files)%nat.
Proof.
  unfold tracks_of.
  induction files as [| f rest IH]; intros acc Hnd; simpl.
  - split; [exact Hnd | lia].
  - destruct (document_of args f) as [doc |].
    + destruct (dict_set_keys (KStr (track_name (stem f))) doc acc Hnd) as (Hnd' & Hlen & _).
      destruct (IH _ Hnd') as (Hnd'' & Hlen'). split; [exact Hnd'' | lia].
    + destruct (IH _ Hnd) as (Hnd'' & Hlen'). split; [exact Hnd'' | lia].
Qed.

(** X15.  A run that exits with status 0 has written one document, whose
    [tracks] hold one entry per track name: under each name, the
    transcription of the last file, in the order of processing, that has
    that name, and nothing under a name no file has.  Two files with the
    same track name give one entry, the later replacing the earlier. *)
Theorem tracks_hold_the_last_file_of_each_name (args : Args) (files : list Path) :
  is_dir (audio_dir args) = true ->
  audio_files_of (audio_dir args) = Ok files ->
  fst (main args) = 0 ->
  exists tracks,
    stdout_of (snd (main args)) = [PDict [(KStr "tracks", PDict tracks)]] /\
    (forall nm,
        dict_get nm tracks = match last_named nm files with
                             | Some f => document_of args f
                             | None => None
                             end) /\
    NoDup (map fst tracks) /\
    (length tracks <= length files)%nat.
Proof.
  intros Hdir Hfiles. unfold main. rewrite Hdir, run_unfold, Hfiles.
  destruct files as [| f rest].
  - intros _. exists []. simpl. repeat split; [constructor | lia].
  - cbv zeta. destruct (WhisperModel (model args)) as [u | e]; [| discriminate].
    match goal with
    | |- context [transcribe_all args ?fs ?a ?t] =>
        destruct (transcribe_all_run args fs a t) as (evs & n & Ht & Ho & _ & _ & Hr);
        destruct (transcribe_all args fs a t) as [[tracks | e] tr']
    end; [| discriminate].
    simpl in Ht, Hr. subst tr'. destruct Hr as (_ & Hall & ->).
    intros _. exists (tracks_of args (f :: rest) []).
    simpl snd. cbn [stdout_of]. rewrite stdout_of_events_app, Ho.
    split; [reflexivity |]. split.
    + intros nm. rewrite (tracks_of_get args nm (f :: rest) [] Hall).
      destruct (last_named nm (f :: rest)); reflexivity.
    + apply (tracks_of_keys args (f :: rest) []). constructor.
Qed.
End Facts.
End Transcription.

(** ** The scenarios, run against the fake collaborator *)

Import Scenario.

(** Scenario A: the users of the server, under string keys. *)
Example scenario_A :
  command_loop [line_A] (start [(7, "alice")]) =
    (Ok tt,
     mkWorld [(7, "alice")]
       [ReadLine line_A;
        RemoteCall (Call_getRegisteredUsers (PStr ""));
        Stdout (PDict [(KStr "id", PStr "1");
                       (KStr "result", PDict [(KStr "7", PStr "alice")])])]).
Proof. vm_compute. reflexivity. Qed.

(** Scenario B: the id arrives as the integer 42. *)
Example scenario_B :
  command_loop [line_B] (start [(42, "bob")]) =
    (Ok tt,
     mkWorld []
       [ReadLine line_B;
        RemoteCall (Call_unregisterUser 42);
        Stdout (PDict [(KStr "id", PStr "2"); (KStr "result", PNone)])]).
Proof. vm_compute. reflexivity. Qed.

(** A malformed id: no remote call, and the error of the coercion. *)
Example scenario_bad_id :
  command_loop [line_bad_id] (start [(42, "bob")]) =
    (Ok tt,
     mkWorld [(42, "bob")]
       [ReadLine line_bad_id;
        Stdout (PDict [(KStr "id", PStr "5");
                       (KStr "error",
                        PStr "invalid literal for int() with base 10: 'abc'")])]).
Proof. vm_compute. reflexivity. Qed.

(** The registration of a user: the fields 0 and 1 under their names,
    the field 7 under its digits. *)
Example scenario_registration :
  command_loop [line_G] (start [(7, "alice")]) =
    (Ok tt,
     mkWorld [(7, "alice")]
       [ReadLine line_G;
        RemoteCall (Call_getRegistration 7);
        Stdout (PDict [(KStr "id", PStr "7");
                       (KStr "result",
                        PDict [(KStr "UserName", PStr "alice");
                               (KStr "UserEmail", PStr "");
                               (KStr "7", PStr "x")])])]).
Proof. vm_compute. reflexivity. Qed.

(** Scenario E: virtual server 1 cannot be resolved. *)
Example scenario_E :
  main (ice := ice_no_server) [line_A] (start []) =
    (1,
     mkWorld []
       [CommunicatorCreated; MetaResolved;
        Stderr "[mumble-ice] Fatal: getServer(1) returned null — is virtual server 1 running?";
        Traceback (RuntimeError "getServer(1) returned null — is virtual server 1 running?");
        CommunicatorDestroyed]).
Proof. vm_compute. reflexivity. Qed.

(** A blank line between two requests: two responses, in order. *)
Example scenario_order :
  stdout_of (trace (snd (command_loop [line_C; "  "; line_A] (start [(7, "alice")])))) =
    [PDict [(KStr "id", PStr "3"); (KStr "error", PStr "Unknown method: frobnicate")];
     PDict [(KStr "id", PStr "1"); (KStr "result", PDict [(KStr "7", PStr "alice")])]].
Proof. vm_compute. reflexivity. Qed.

(** Scenario C, by the theorem on unknown methods. *)
Lemma unknown_method_witness :
  is_known (PStr "frobnicate") = false /\
  command_loop [line_C] (start []) =
    (Ok tt,
     mkWorld []
       [ReadLine line_C;
        Stdout (PDict [(KStr "id", PStr "3");
                       (KStr "error", PStr "Unknown method: frobnicate")])]).
Proof.
  split; [reflexivity |].
  destruct (unknown_method_is_local_error (rt := runtime) (server := fake)
              (PStr "frobnicate") eq_refl) as (_ & _ & H).
  rewrite (H line_C [] [(KStr "id", PStr "3"); (KStr "method", PStr "frobnicate");
                        (KStr "params", PDict [])]
             (start []) eq_refl eq_refl eq_refl).
  reflexivity.
Defined.

(** A JSON array on a line, by the theorem on lines that are no object. *)
Lemma non_object_line_witness :
  blank line_array = false /\
  json_loads (strip line_array) = inl (PList [PInt 1; PInt 2]) /\
  command_loop [line_array; line_A] (start [(7, "alice")]) =
    command_loop [line_A]
      (mkWorld [(7, "alice")]
         [ReadLine line_array;
          Stdout (PDict [(KStr "id", PStr "");
                         (KStr "error", PStr "'list' object has no attribute 'get'")])]).
Proof.
  split; [reflexivity | split; [reflexivity |]].
  exact (non_object_line_is_answered (rt := runtime) (server := fake)
           line_array [line_A] (PList [PInt 1; PInt 2]) (start [(7, "alice")])
           eq_refl eq_refl eq_refl).
Defined.

(** Scenario D, by the theorem on the failure translator. *)
Lemma failure_translator_witness :
  command_loop [line_D; line_A] (start [(7, "alice")]) =
    command_loop [line_A]
      (mkWorld [(7, "alice")]
         [ReadLine line_D;
          RemoteCall (Call_getACL 999);
          Stdout (PDict [(KStr "id", PStr "4");
                         (KStr "error", PStr "Murmur: InvalidChannelException")])]).
Proof.
  exact (proj1 (failure_translator (rt := runtime) (server := fake)
                  line_D [line_A] (start [(7, "alice")])
                  (mkWorld [(7, "alice")] [ReadLine line_D; RemoteCall (Call_getACL 999)])
                  (InvalidChannelException "") (PStr "4") eq_refl eq_refl)).
Defined.




(** The ACL of channel 0, by the theorem on [getACL]. *)
Lemma getACL_witness :
  command_loop [line_F] (start []) =
    (Ok tt,
     mkWorld []
       [ReadLine line_F;
        RemoteCall (Call_getACL 0);
        Stdout (PDict [(KStr "id", PStr "6");
                       (KStr "result",
                        PDict [(KStr "acls", PList (map acl_to_dict [the_acl]));
                               (KStr "inherit", PBool true)])])]).
Proof.
  exact (proj2 (proj2 (getACL_response_drops_groups (rt := runtime) (server := fake)
                  (PDict [(KStr "channelId", PInt 0)])
                  (log (ReadLine line_F) (start [])) (PInt 0) 0
                  [the_acl] ["admin"%string] true [] eq_refl eq_refl eq_refl))
           line_F []
           [(KStr "id", PStr "6"); (KStr "method", PStr "getACL");
            (KStr "params", PDict [(KStr "channelId", PInt 0)])]
           (start []) eq_refl eq_refl eq_refl eq_refl eq_refl).
Defined.

(** A configured secret and no implicit context: the communicator is
    created and never destroyed. *)
Lemma communicator_left_open_witness :
  let evs :=
    [CommunicatorCreated;
     Stderr "[mumble-ice] Fatal: 'NoneType' object has no attribute 'put'";
     Traceback (AttributeError "'NoneType' object has no attribute 'put'")] in
  main (ice := ice_no_context) [line_A] (start [(7, "alice")]) =
    (1, mkWorld [(7, "alice")] evs) /\
  count is_created evs = 1%nat /\
  count is_destroyed evs = 0%nat.
Proof.
  exact (communicator_left_open_when_secret_fails
           (rt := runtime) (ice := ice_no_context) (server := fake)
           [line_A] (start [(7, "alice")]) 6502
           (AttributeError "'NoneType' object has no attribute 'put'")
           eq_refl eq_refl eq_refl
           (fun H : "s3cret"%string = ""%string =>
              match H in (_ = s) return match s with
                                        | EmptyString => False
                                        | String _ _ => True
                                        end
              with eq_refl => I end)
           eq_refl).
Defined.

(** ** More scenarios *)

(** The coercion fails after nothing else: the error is local. *)
Lemma dispatch_invokes_witness :
  let run := dispatch (PStr "getACL") (PDict [(KStr "channelId", PInt 999)])
                      (start [(7, "alice")]) in
  fst run = Raise (InvalidChannelException "") /\
  snd run = mkWorld [(7, "alice")] [RemoteCall (Call_getACL 999)].
Proof.
  cbv zeta.
  destruct (dispatch_invokes_only_the_named_procedure (rt := runtime) (server := fake)
              (PStr "getACL") (PDict [(KStr "channelId", PInt 999)])
              (start [(7, "alice")])
              (mkWorld [(7, "alice")] [RemoteCall (Call_getACL 999)])
              (Raise (InvalidChannelException "")) eq_refl)
    as [(e & He & Hlocal & _) | _].
  - inversion He; subst. destruct Hlocal.
  - split; reflexivity.
Defined.

(** Parameters that are a list. *)
Lemma params_no_object_witness :
  let run := dispatch (PStr "getRegisteredUsers") (PList []) (start [(7, "alice")]) in
  snd run = start [(7, "alice")] /\ exists e, fst run = Raise e /\ is_local e.
Proof.
  cbv zeta.
  exact (params_that_are_no_object_stay_local (rt := runtime) (server := fake)
           (PStr "getRegisteredUsers") (PList []) (start [(7, "alice")])
           (snd (dispatch (PStr "getRegisteredUsers") (PList []) (start [(7, "alice")])))
           (fst (dispatch (PStr "getRegisteredUsers") (PList []) (start [(7, "alice")])))
           eq_refl eq_refl).
Defined.

(** [registerUser] without a password. *)
Lemma missing_parameter_witness :
  let run := dispatch (PStr "registerUser") (PDict [(KStr "username", PStr "carol")])
                      (start []) in
  snd run = start [] /\
  exists e,
    fst run = Raise e /\ error_message e = exn_str e /\
    (read_before "registerUser" "password" (PDict [(KStr "username", PStr "carol")]) ->
     e = KeyError "'password'").
Proof.
  cbv zeta.
  exact (missing_parameter_is_a_KeyError (rt := runtime) (server := fake)
           "registerUser" "password" [(KStr "username", PStr "carol")] (start [])
           (snd (dispatch (PStr "registerUser") (PDict [(KStr "username", PStr "carol")])
                   (start [])))
           (fst (dispatch (PStr "registerUser") (PDict [(KStr "username", PStr "carol")])
                   (start [])))
           (or_intror (or_introl eq_refl)) eq_refl eq_refl).
Defined.

(** An update of the password alone. *)
Lemma updateRegistration_witness :
  exists info,
    dispatch (PStr "updateRegistration")
             (PDict [(KStr "userId", PInt 7);
                     (KStr "updates", PDict [(KStr "password", PStr "x")])])
             (start [(7, "alice")]) =
      (Ok PNone,
       mkWorld [(7, "alice")] [RemoteCall (Call_updateRegistration 7 info)]) /\
    assoc_get Z.eqb UserName info = None /\
    assoc_get Z.eqb UserPassword info = Some (PStr "x") /\
    (forall k, k <> UserName -> k <> UserPassword -> assoc_get Z.eqb k info = None).
Proof.
  exact (updateRegistration_forwards_present_fields (rt := runtime) (server := fake)
           (PDict [(KStr "userId", PInt 7);
                   (KStr "updates", PDict [(KStr "password", PStr "x")])])
           [(KStr "password", PStr "x")] (PInt 7) 7 (start [(7, "alice")])
           eq_refl eq_refl eq_refl).
Defined.

(** An [updates] that is a list of other strings. *)
Lemma updates_no_object_witness :
  info_of_updates (PDict [(KStr "updates", PList [PStr "email"])]) = Ok [] /\
  @nil (UserInfo * pyval) = [].
Proof.
  split; [reflexivity |].
  exact (updates_that_are_no_object_add_nothing
           (PDict [(KStr "updates", PList [PStr "email"])]) (PList [PStr "email"]) []
           eq_refl eq_refl eq_refl).
Defined.

(** No secret is configured: the communicator is destroyed once. *)
Lemma communicator_released_witness :
  exists evs,
    trace (snd (main (ice := ice_up) [line_A] (start [(7, "alice")]))) = [] ++ evs /\
    (count is_created evs <= 1)%nat /\
    count is_destroyed evs = count is_created evs.
Proof.
  exact (communicator_released_on_other_paths
           (rt := runtime) (ice := ice_up) (server := fake)
           [line_A] (start [(7, "alice")]) (or_introl eq_refl)).
Defined.

(** A numbered take of two words. *)
Lemma track_name_witness :
  Transcribe.track_name (env := Recording.environment) "12-alice-bob" = "alice-bob"%string /\
  Transcribe.track_name (env := Recording.environment) "12" = "12"%string.
Proof.
  exact (Transcription.track_name_drops_a_numeric_prefix
           (env := Recording.environment) "12" "alice-bob" eq_refl).
Defined.

(** The directory [take1]: two [.ogg] files and one [.flac] file. *)
Lemma every_file_witness :
  let files := (Transcribe.sorted (env := Recording.environment) Recording.oggs
                  ++ Transcribe.sorted (env := Recording.environment) Recording.flacs) in
  let result := Transcribe.main (env := Recording.environment) Recording.take1 in
  Permutation (Transcribe.sorted (env := Recording.environment) Recording.oggs)
              Recording.oggs /\
  Permutation (Transcribe.sorted (env := Recording.environment) Recording.flacs)
              Recording.flacs /\
  Transcribe.loaded (snd result) = ["small"%string] /\
  exists n,
    Transcribe.transcribed (snd result) = firstn n (map Transcribe.path_str files) /\
    (fst result = 0 -> n = length files).
Proof.
  exact (Transcription.every_file_is_transcribed_once_in_order
           (env := Recording.environment) Recording.take1 Recording.oggs Recording.flacs
           eq_refl eq_refl eq_refl).
Defined.

(** Two files of the directory are takes of [alice]: the later one is
    kept. *)
Lemma tracks_witness :
  exists tracks,
    Transcribe.stdout_of (snd (Transcribe.main (env := Recording.environment) Recording.take1)) =
      [PDict [(KStr "tracks", PDict tracks)]] /\
    (forall nm,
        dict_get nm tracks =
          match Transcribe.last_named (env := Recording.environment) nm
                  [Recording.file "1-alice" ".ogg"; Recording.file "2-bob" ".ogg";
                   Recording.file "3-alice" ".flac"] with
          | Some f =>
              Transcribe.document_of (env := Recording.environment) Recording.take1 f
          | None => None
          end) /\
    NoDup (map fst tracks) /\
    (length tracks <= 3)%nat.
Proof.
  exact (Transcription.tracks_hold_the_last_file_of_each_name
           (env := Recording.environment) Recording.take1
           [Recording.file "1-alice" ".ogg"; Recording.file "2-bob" ".ogg";
            Recording.file "3-alice" ".flac"]
           eq_refl eq_refl eq_refl).
Defined.

(** The run on [take1]: the progress on standard error, then one
    document, in which [alice] is the later take. *)
Example scenario_take1 :
  Transcribe.main (env := Recording.environment) Recording.take1 =
    (0,
     let kwargs := Transcribe.keyword_arguments "en" "" in
     let doc path :=
       PDict [(KStr "segments",
               PList [PDict [(KStr "start", PFloat 0%float); (KStr "end", PFloat 1%float);
                             (KStr "text", PStr path);
                             (KStr "avg_logprob", PFloat 0%float)]]);
              (KStr "language", PStr "en"); (KStr "duration", PFloat 1%float)] in
     [Transcribe.Stderr "Loading model 'small'...";
      Transcribe.LoadModel "small";
      Transcribe.Stderr "Transcribing alice (1-alice.ogg)...";
      Transcribe.Transcribe "take1/1-alice.ogg" kwargs;
      Transcribe.Stderr "Transcribing bob (2-bob.ogg)...";
      Transcribe.Transcribe "take1/2-bob.ogg" kwargs;
      Transcribe.Stderr "Transcribing alice (3-alice.flac)...";
      Transcribe.Transcribe "take1/3-alice.flac" kwargs;
      Transcribe.Stdout
        (PDict [(KStr "tracks",
                 PDict [(KStr "alice", doc "take1/3-alice.flac"%string);
                        (KStr "bob", doc "take1/2-bob.ogg"%string)])])]).
Proof. vm_compute. reflexivity. Qed.
